(** * A contract-invocation client for Nuxt / web3-onboard

    Shallow embedding of [utils/rpc-provider.ts] (endpoint pool, provider
    cache, fallback loop) and of the [useContract] composable (conversion
    helpers, connection selection, race-protected reads, preflighted writes),
    together with the properties of their behaviour.

    Conventions.
    - A JavaScript [number] is a binary64 value, [spec_float] of the Standard
      Library.  Chain identifiers are the integer-valued numbers; they are
      carried as [Z] and printed in decimal where the source interpolates them
      into a message.
    - A [bigint] is a [Z].
    - A thrown value is an error object [JsError]; [Completion] is the result
      of evaluating an expression or of settling a promise.
    - Asynchronous functions are computations in the monad [M] over the heap
      of the page; an [await] on a collaborator (ethers, the wallet) asks the
      [World] for its answer at the current tick and records an event. *)

From Stdlib Require Import ZArith String List Bool.
From Stdlib Require Import Floats.SpecFloat.
From Stdlib Require Import Ascii.
From stdpp Require Import base option strings list gmap pretty.

Local Open Scope string_scope.
Local Open Scope Z_scope.
Local Open Scope list_scope.

(** ** JavaScript values and errors *)

Module Js.

(** binary64 *)
Definition prec : Z := 53.
Definition emax : Z := 1024.

Definition NaN : spec_float := S754_nan.

(** [Number(z)] for a bigint [z]: the nearest binary64, ties to even. *)
Definition Number_of_bigint (z : Z) : spec_float :=
  binary_normalize prec emax z 0 false.

Inductive JsValue : Type :=
  | JsUndefined
  | JsNull
  | JsBoolean (b : bool)
  | JsNumber (x : spec_float)
  | JsBigInt (z : Z)
  | JsString (s : string)
  | JsSymbol (description : string)
  | JsFunction (ref : nat)
  | JsObject (ref : nat).

Definition typeof (v : JsValue) : string :=
  match v with
  | JsUndefined => "undefined"
  | JsNull => "object"
  | JsBoolean _ => "boolean"
  | JsNumber _ => "number"
  | JsBigInt _ => "bigint"
  | JsString _ => "string"
  | JsSymbol _ => "symbol"
  | JsFunction _ => "function"
  | JsObject _ => "object"
  end.

(** The error objects the code inspects: [e.data], [e.error.data] and
    [e.info.error.data] are the places where ethers leaves a revert payload. *)
Record ErrorBody := { body_data : option string }.
Record ErrorInfo := { info_error : option ErrorBody }.
Record JsError := {
  name : string;
  message : string;
  data : option string;
  error : option ErrorBody;
  info : option ErrorInfo
}.

(** [new Error(msg)] *)
Definition Error (msg : string) : JsError :=
  {| name := "Error"; message := msg; data := None; error := None; info := None |}.
Definition RangeError (msg : string) : JsError :=
  {| name := "RangeError"; message := msg; data := None; error := None; info := None |}.
Definition SyntaxError (msg : string) : JsError :=
  {| name := "SyntaxError"; message := msg; data := None; error := None; info := None |}.

Inductive Completion (A : Type) : Type :=
  | Normal (a : A)
  | Throw (e : JsError).
Arguments Normal {A} a.
Arguments Throw {A} e.

Definition is_throw {A} (c : Completion A) : bool :=
  match c with Normal _ => false | Throw _ => true end.

(** [try { body } catch { handler }] on an expression without side effect. *)
Definition try_expr {A} (body : Completion A) (handler : JsError -> Completion A)
  : Completion A :=
  match body with
  | Normal a => Normal a
  | Throw e => handler e
  end.

(** What the language itself computes and this development does not spell
    out: reading a number or a bigint out of a string, printing a number, and
    the implementation-defined text of the errors [BigInt] raises. *)
Class Runtime := {
  StringToNumber : string -> spec_float;
  StringToBigInt : string -> option Z;
  NumberToString : spec_float -> string;
  ObjectToString : JsValue -> string;
  BigInt_message : JsValue -> string
}.

(** The mathematical value of a number, when it is an integer. *)
Definition integral_value (x : spec_float) : option Z :=
  match x with
  | S754_zero _ => Some 0
  | S754_finite s m e =>
      let sign := if s then (-1) else 1 in
      if 0 <=? e then Some (sign * (Z.pos m * 2 ^ e))
      else if Z.pos m mod 2 ^ (- e) =? 0 then Some (sign * (Z.pos m / 2 ^ (- e)))
      else None
  | S754_infinity _ => None
  | S754_nan => None
  end.

Section WithRuntime.
Context `{Runtime}.

(** [Number(s)] *)
Definition Number_of_string (s : string) : spec_float := StringToNumber s.

(** [BigInt(x)] for a number: a RangeError unless [x] is an integer. *)
Definition BigInt_of_number (x : spec_float) : Completion Z :=
  match integral_value x with
  | Some z => Normal z
  | None => Throw (RangeError (BigInt_message (JsNumber x)))
  end.

(** [BigInt(s)] for a string: a SyntaxError unless [s] reads as an integer. *)
Definition BigInt_of_string (s : string) : Completion Z :=
  match StringToBigInt s with
  | Some z => Normal z
  | None => Throw (SyntaxError (BigInt_message (JsString s)))
  end.

(** [String(v)] *)
Definition String_ (v : JsValue) : string :=
  match v with
  | JsUndefined => "undefined"
  | JsNull => "null"
  | JsBoolean b => if b then "true" else "false"
  | JsNumber x => NumberToString x
  | JsBigInt z => pretty z
  | JsString s => s
  | JsSymbol d => "Symbol(" +:+ d +:+ ")"
  | JsFunction _ => ObjectToString v
  | JsObject _ => ObjectToString v
  end.
End WithRuntime.

(** [v !== 0] on numbers: only the two zeros are equal to 0. *)
Definition number_is_nonzero (x : spec_float) : bool :=
  match x with
  | S754_zero _ => false
  | _ => true
  end.

End Js.
Export Js.

(** ** The page: heap, collaborators and the monad of asynchronous code *)

(** A [JsonRpcProvider] object; [provider_ref] is its identity. *)
Record JsonRpcProvider := {
  provider_ref : nat;
  provider_url : string
}.

(** The EIP-1193 channel a connected wallet exposes. *)
Record Eip1193Provider := { eip1193_ref : nat }.

Record Signer := { signer_address : string }.

(** What a [Contract] runs its calls on. *)
Inductive Runner : Type :=
  | RunnerRpc (p : JsonRpcProvider)
  | RunnerBrowser (p : Eip1193Provider)
  | RunnerSigner (p : Eip1193Provider) (s : Signer).

Record Contract := {
  target : string;
  interface : list string;
  runner : Runner
}.

Record ContractTransactionResponse := { hash : string }.

(** The result of [Interface.parseError]. *)
Record ErrorDescription := {
  error_name : string;
  error_args : list JsValue
}.

Inductive Event : Type :=
  | EvGetBlockNumber (p : JsonRpcProvider)
  | EvGetSigner (p : Eip1193Provider)
  | EvCall (c : Contract) (method : string) (args : list JsValue)
  | EvStaticCall (c : Contract) (method : string) (args : list JsValue)
  | EvSend (c : Contract) (method : string) (args : list JsValue)
  | EvConsoleWarn (msg : string) (e : JsError)
  | EvConsoleError (msg : string) (e : option JsError).

(** The requests that leave the page. *)
Definition is_network_call (ev : Event) : bool :=
  match ev with
  | EvGetBlockNumber _ | EvGetSigner _ | EvCall _ _ _
  | EvStaticCall _ _ _ | EvSend _ _ _ => true
  | EvConsoleWarn _ _ | EvConsoleError _ _ => false
  end.

Definition is_submission (ev : Event) : bool :=
  match ev with
  | EvSend _ _ _ => true
  | _ => false
  end.

(** The collaborators.  Constructors and local lookups answer from their
    arguments; a request that is awaited answers from the tick at which it is
    made, so that an endpoint may be up at one moment and down at another. *)
Record World := {
  JsonRpcProvider_new : string -> Completion unit;
  getBlockNumber : nat -> JsonRpcProvider -> Completion Z;
  BrowserProvider_new : Eip1193Provider -> Completion unit;
  getSigner : nat -> Eip1193Provider -> Completion Signer;
  getFunction : Contract -> string -> Completion unit;
  call : nat -> Contract -> string -> list JsValue -> Completion JsValue;
  staticCall : nat -> Contract -> string -> list JsValue -> Completion JsValue;
  send : nat -> Contract -> string -> list JsValue
         -> Completion ContractTransactionResponse;
  parseError : list string -> string -> Completion (option ErrorDescription)
}.

(** Module state of [rpc-provider.ts], state of one [useContract] instance,
    and the bookkeeping of the model (tick, next object identity, events in
    the order they happened). *)
Record Heap := {
  providerCache : gmap Z JsonRpcProvider;
  latestFetchId : N;
  loading : bool;
  submitting : bool;
  tick : nat;
  next_ref : nat;
  events : list Event
}.

Definition initial_heap : Heap :=
  {| providerCache := ∅; latestFetchId := 0%N; loading := false;
     submitting := false; tick := 0%nat; next_ref := 0%nat; events := [] |}.

Definition set_providerCache (f : gmap Z JsonRpcProvider -> gmap Z JsonRpcProvider)
  (h : Heap) : Heap :=
  {| providerCache := f (providerCache h); latestFetchId := latestFetchId h;
     loading := loading h; submitting := submitting h; tick := tick h;
     next_ref := next_ref h; events := events h |}.
Definition set_latestFetchId (n : N) (h : Heap) : Heap :=
  {| providerCache := providerCache h; latestFetchId := n;
     loading := loading h; submitting := submitting h; tick := tick h;
     next_ref := next_ref h; events := events h |}.
Definition set_loading (b : bool) (h : Heap) : Heap :=
  {| providerCache := providerCache h; latestFetchId := latestFetchId h;
     loading := b; submitting := submitting h; tick := tick h;
     next_ref := next_ref h; events := events h |}.
Definition set_submitting (b : bool) (h : Heap) : Heap :=
  {| providerCache := providerCache h; latestFetchId := latestFetchId h;
     loading := loading h; submitting := b; tick := tick h;
     next_ref := next_ref h; events := events h |}.
Definition record_event (ev : Event) (h : Heap) : Heap :=
  {| providerCache := providerCache h; latestFetchId := latestFetchId h;
     loading := loading h; submitting := submitting h; tick := tick h;
     next_ref := next_ref h; events := events h ++ [ev] |}.
Definition advance (h : Heap) : Heap :=
  {| providerCache := providerCache h; latestFetchId := latestFetchId h;
     loading := loading h; submitting := submitting h; tick := S (tick h);
     next_ref := next_ref h; events := events h |}.
Definition allocate (h : Heap) : Heap :=
  {| providerCache := providerCache h; latestFetchId := latestFetchId h;
     loading := loading h; submitting := submitting h; tick := tick h;
     next_ref := S (next_ref h); events := events h |}.

Definition M (A : Type) : Type := Heap -> Completion A * Heap.

#[export] Instance M_ret : MRet M := fun A a h => (Normal a, h).
#[export] Instance M_bind : MBind M := fun A B f m h =>
  match m h with
  | (Normal a, h') => f a h'
  | (Throw e, h') => (Throw e, h')
  end.

Definition throw {A} (e : JsError) : M A := fun h => (Throw e, h).
Definition settle {A} (c : Completion A) : M A := fun h => (c, h).
Definition gets {A} (f : Heap -> A) : M A := fun h => (Normal (f h), h).
Definition modify (f : Heap -> Heap) : M unit := fun h => (Normal tt, f h).

(** [try { body } catch (e) { handler e }] *)
Definition try_catch {A} (body : M A) (handler : JsError -> M A) : M A :=
  fun h =>
    match body h with
    | (Normal a, h') => (Normal a, h')
    | (Throw e, h') => handler e h'
    end.

(** [try { body } finally { cleanup }]: the cleanup runs on every exit and,
    unless it throws itself, leaves the completion of the body in place. *)
Definition try_finally {A} (body : M A) (cleanup : M unit) : M A :=
  fun h =>
    let '(c, h') := body h in
    match cleanup h' with
    | (Normal _, h'') => (c, h'')
    | (Throw e, h'') => (Throw e, h'')
    end.

(** Running [m] to its completion, handed over as a value. *)
Definition outcome_of {A} (m : M A) : M (Completion A) :=
  fun h => let '(c, h') := m h in (Normal c, h').

(** An awaited request to a collaborator: it is recorded, answered from the
    current tick, and time moves on. *)
Definition await {A} (ev : Event) (answer : nat -> Completion A) : M A :=
  fun h => (answer (tick h), advance (record_event ev h)).

Definition console_warn (msg : string) (e : JsError) : M unit :=
  modify (record_event (EvConsoleWarn msg e)).
Definition console_error (msg : string) (e : option JsError) : M unit :=
  modify (record_event (EvConsoleError msg e)).

(** ** utils/rpc-provider.ts

    A call of [getRpcProvider] is followed from its start to its settlement;
    the cache is the one the call finds, and no other task changes it between
    two of its awaits. *)

(** RPC endpoints with fallback pattern *)
Definition RPC_ENDPOINTS : gmap Z (list string) :=
  list_to_map [
    (56, ["https://bsc-rpc.publicnode.com";
          "https://bsc.blockrazor.xyz";
          "https://bsc.drpc.org"]);
    (97, ["https://bsc-testnet-rpc.publicnode.com";
          "https://bsc-testnet.public.blastapi.io";
          "https://bsc-testnet.drpc.org"]);
    (1, ["https://ethereum-rpc.publicnode.com";
         "https://0xrpc.io/eth";
         "https://eth.drpc.org"]);
    (137, ["https://polygon-rpc.com";
           "https://polygon.drpc.org";
           "https://rpc.ankr.com/polygon"]);
    (42161, ["https://arb1.arbitrum.io/rpc";
             "https://arbitrum.drpc.org";
             "https://rpc.ankr.com/arbitrum"]);
    (8453, ["https://mainnet.base.org";
            "https://base-rpc.publicnode.com";
            "https://base.drpc.org"])
  ].

(** [RPC_ENDPOINTS[chainId] || []]: an array, even an empty one, is truthy. *)
Definition getRpcEndpoints (chainId : Z) : list string :=
  match RPC_ENDPOINTS !! chainId with
  | Some endpoints => endpoints
  | None => []
  end.

Definition clearProviderCache : M unit :=
  modify (set_providerCache (fun _ => ∅)).

Definition no_endpoints_message (chainId : Z) : string :=
  "No RPC endpoints configured for chain ID " +:+ pretty chainId.
Definition all_failed_message (chainId : Z) : string :=
  "All RPC endpoints failed for chain ID " +:+ pretty chainId.
Definition endpoint_failed_message (endpoint : string) : string :=
  "RPC endpoint " +:+ endpoint +:+ " failed:".

Section RpcProvider.
Variable W : World.

(** [new JsonRpcProvider(endpoint)] *)
Definition new_JsonRpcProvider (endpoint : string) : M JsonRpcProvider :=
  _ ← settle (JsonRpcProvider_new W endpoint);
  ref ← gets next_ref;
  _ ← modify allocate;
  mret {| provider_ref := ref; provider_url := endpoint |}.

(** [await provider.getBlockNumber()] *)
Definition provider_getBlockNumber (provider : JsonRpcProvider) : M Z :=
  await (EvGetBlockNumber provider) (fun t => getBlockNumber W t provider).

(** The body of the [try] inside the loop over the endpoints. *)
Definition try_endpoint (chainId : Z) (endpoint : string) : M JsonRpcProvider :=
  provider ← new_JsonRpcProvider endpoint;
  _ ← provider_getBlockNumber provider;
  _ ← modify (set_providerCache (insert chainId provider));
  mret provider.

(** [for (const endpoint of endpoints) { try { ...; return provider }
    catch (error) { console.warn(...); continue } }] followed by the final
    [throw]. *)
Fixpoint try_endpoints (chainId : Z) (endpoints : list string) : M JsonRpcProvider :=
  match endpoints with
  | [] => throw (Error (all_failed_message chainId))
  | endpoint :: rest =>
      try_catch (try_endpoint chainId endpoint)
        (fun error =>
           _ ← console_warn (endpoint_failed_message endpoint) error;
           try_endpoints chainId rest)
  end.

(** The first block of [getRpcProvider]: [Some p] when it returns the cached
    provider, [None] when control falls through to the endpoints. *)
Definition probe_cached (chainId : Z) : M (option JsonRpcProvider) :=
  cache ← gets providerCache;
  match cache !! chainId with
  | Some cachedProvider =>
      try_catch
        (_ ← provider_getBlockNumber cachedProvider;
         mret (Some cachedProvider))
        (fun _ =>
           _ ← modify (set_providerCache (delete chainId));
           mret None)
  | None => mret None
  end.

Definition getRpcProvider (chainId : Z) : M JsonRpcProvider :=
  returned ← probe_cached chainId;
  match returned with
  | Some cachedProvider => mret cachedProvider
  | None =>
      match RPC_ENDPOINTS !! chainId with
      | None => throw (Error (no_endpoints_message chainId))
      | Some [] => throw (Error (no_endpoints_message chainId))
      | Some endpoints => try_endpoints chainId endpoints
      end
  end.

End RpcProvider.

(** ** stores/web3.ts, as far as [useContract] reads it *)

(** A wallet of the onboard state.  [chains] holds the numeric value
    [Number(chain.id)] of each connected chain; [provider] is declared
    present by the type and tested all the same by the code. *)
Record WalletState := {
  label : string;
  provider : option Eip1193Provider;
  chains : list Z
}.

Record Web3Store := { wallets : list WalletState }.

Module web3Store.
(** [wallets.value[0] ?? null] *)
Definition connectedWallet (s : Web3Store) : option WalletState :=
  head (wallets s).
(** [connectedWallet.value?.chains[0] ?? null], then its numeric id or null *)
Definition chainId (s : Web3Store) : option Z :=
  connectedWallet s ≫= fun w => head (chains w).
(** [!!connectedWallet.value] *)
Definition isConnected (s : Web3Store) : bool :=
  match connectedWallet s with Some _ => true | None => false end.
End web3Store.

(** ** The [useContract] composable *)

Record ContractConfig := {
  address : string;
  abi : list string;
  chainId : Z
}.

(** Truthiness of a [string | undefined]. *)
Definition truthy (d : option string) : bool :=
  match d with
  | Some s => negb (String.eqb s EmptyString)
  | None => false
  end.

(** [a || b] *)
Definition js_or (a b : option string) : option string :=
  if truthy a then a else b.

(** Helper to extract revert data from errors:
    [e?.data || e?.error?.data || e?.info?.error?.data] *)
Definition extractRevertData (e : JsError) : option string :=
  js_or (js_or (data e)
               (e' ← error e; body_data e'))
        (i ← info e; e' ← info_error i; body_data e').

(** [web3Store.chainId === config.chainId] *)
Definition same_chain (active : option Z) (wanted : Z) : bool :=
  match active with
  | Some c => c =? wanted
  | None => false
  end.

(** [++latestFetchId] on a binary64 counter: exact below 2^53, where adding
    one stops changing the value. *)
Definition increment (n : N) : N :=
  if (n <? 2 ^ 53)%N then (n + 1)%N else n.

Definition wrong_network_message (wanted : Z) : string :=
  "Wrong network. Please switch to chain " +:+ pretty wanted.

Section TypeConversion.
Context `{Runtime}.

Definition asBigInt (v : JsValue) (fallback : Z) : Completion Z :=
  match v with
  | JsBigInt z => Normal z
  | JsNumber x => BigInt_of_number x
  | JsString s => try_expr (BigInt_of_string s) (fun _ => Normal fallback)
  | _ => Normal fallback
  end.

Definition asBoolean (v : JsValue) (fallback : bool) : bool :=
  match v with
  | JsBoolean b => b
  | JsBigInt z => negb (z =? 0)
  | JsNumber x => number_is_nonzero x
  | JsString s => String.eqb s "true" || String.eqb s "1"
  | _ => fallback
  end.

Definition asNumber (v : JsValue) (fallback : spec_float) : spec_float :=
  match v with
  | JsNumber x => x
  | JsBigInt z => Number_of_bigint z
  | JsString s => Number_of_string s
  | _ => fallback
  end.

Definition asString (v : JsValue) (fallback : string) : string :=
  match v with
  | JsString s => s
  | _ => fallback
  end.

(** [decoded?.name === 'Error' ? String(decoded?.args?.[0]) : `${decoded?.name}`] *)
Definition revert_message (decoded : option ErrorDescription) : string :=
  match decoded with
  | Some d =>
      if String.eqb (error_name d) "Error"
      then String_ (List.nth 0 (error_args d) JsUndefined)
      else error_name d
  | None => "undefined"
  end.

End TypeConversion.

(** The defaults of the [fallback] parameters. *)
Definition asBigInt_fallback : Z := 0.
Definition asBoolean_fallback : bool := false.
Definition asNumber_fallback : spec_float := S754_zero false.
Definition asString_fallback : string := EmptyString.

Section UseContract.
Context `{Runtime}.
Variable W : World.
Variable config : ContractConfig.

(** [web3Store.connectedWallet?.provider] *)
Definition wallet_provider (store : Web3Store) : option Eip1193Provider :=
  w ← web3Store.connectedWallet store; provider w.

(** [new BrowserProvider(web3Store.connectedWallet.provider)] *)
Definition new_BrowserProvider (store : Web3Store) : M Eip1193Provider :=
  match wallet_provider store with
  | Some p => _ ← settle (BrowserProvider_new W p); mret p
  | None => throw {| name := "TypeError"; message := "invalid EIP-1193 provider";
                     data := None; error := None; info := None |}
  end.

(** Get a read-only contract instance: the wallet's channel when it is
    connected on the right chain, the public RPC provider otherwise. *)
Definition getReadContract (store : Web3Store) : M Contract :=
  returned ←
    (if web3Store.isConnected store
        && same_chain (web3Store.chainId store) (chainId config)
        && bool_decide (is_Some (wallet_provider store))
     then
       try_catch
         (p ← new_BrowserProvider store;
          mret (Some {| target := address config; interface := abi config;
                        runner := RunnerBrowser p |}))
         (fun e =>
            _ ← console_warn
                  "[useContract] Failed to use wallet provider, falling back to RPC" e;
            mret None)
     else mret None);
  match returned with
  | Some contract => mret contract
  | None =>
      p ← getRpcProvider W (chainId config);
      mret {| target := address config; interface := abi config;
              runner := RunnerRpc p |}
  end.

(** Get a write-capable contract instance using the user's wallet.
    Throws if not connected or on wrong chain. *)
Definition getWriteContract (store : Web3Store) : M Contract :=
  if negb (web3Store.isConnected store)
     || negb (bool_decide (is_Some (wallet_provider store)))
  then throw (Error "Wallet not connected")
  else if negb (same_chain (web3Store.chainId store) (chainId config))
  then throw (Error (wrong_network_message (chainId config)))
  else
    p ← new_BrowserProvider store;
    signer ← await (EvGetSigner p) (fun t => getSigner W t p);
    mret {| target := address config; interface := abi config;
            runner := RunnerSigner p signer |}.

(** [fetchData], up to its [await]: a token is issued and the indicator set. *)
Definition fetchData_begin : M N :=
  latest ← gets latestFetchId;
  let fetchId := increment latest in
  _ ← modify (set_latestFetchId fetchId);
  _ ← modify (set_loading true);
  mret fetchId.

(** [fetchData], from the moment the awaited fetcher settles with [outcome]
    to the settlement of the promise the caller holds. *)
Definition fetchData_resume {T} (fetchId : N) (outcome : Completion T) : M T :=
  try_finally
    (try_catch
       (result ← settle outcome;
        latest ← gets latestFetchId;
        if negb (fetchId =? latest)%N
        then throw (Error "Stale fetch result")
        else mret result)
       (fun e =>
          latest ← gets latestFetchId;
          if (fetchId =? latest)%N
          then throw e
          else throw (Error "Stale fetch result")))
    (latest ← gets latestFetchId;
     if (fetchId =? latest)%N
     then modify (set_loading false)
     else mret tt).

(** A call of [fetchData] that nothing overlaps. *)
Definition fetchData {T} (fetcher : M T) : M T :=
  fetchId ← fetchData_begin;
  outcome ← outcome_of fetcher;
  fetchData_resume fetchId outcome.

(** Read contract method with automatic fallback. *)
Definition read (store : Web3Store) (method : string) (args : list JsValue)
  : M JsValue :=
  fetchData
    (contract ← getReadContract store;
     await (EvCall contract method args) (fun t => call W t contract method args)).

(** The [catch (preflightErr)] block of the preflight check. *)
Definition preflight_catch (preflightErr : JsError) : M unit :=
  let data := extractRevertData preflightErr in
  if truthy data then
    try_catch
      (decoded ← settle (parseError W (abi config) (default EmptyString data));
       let msg := revert_message decoded in
       throw (Error msg))
      (fun _ => throw preflightErr)
  else throw preflightErr.

(** The [catch (e)] block that closes [write]. *)
Definition write_catch (method : string) (e : JsError)
  : M ContractTransactionResponse :=
  let data := extractRevertData e in
  if truthy data then
    try_catch
      (decoded ← settle (parseError W (abi config) (default EmptyString data));
       let msg := revert_message decoded in
       _ ← console_error
             ("[useContract] " +:+ method +:+ " reverted: " +:+ msg) None;
       throw (Error msg))
      (fun _ =>
         _ ← console_error
               ("[useContract] Write error (" +:+ method +:+ "):") (Some e);
         throw e)
  else
    _ ← console_error
          ("[useContract] Write error (" +:+ method +:+ "):") (Some e);
    throw e.

(** Write contract method with preflight validation and error decoding. *)
Definition write (store : Web3Store) (method : string) (args : list JsValue)
  : M ContractTransactionResponse :=
  _ ← modify (set_submitting true);
  try_finally
    (try_catch
       (contract ← getWriteContract store;
        _ ← try_catch
              (_ ← settle (getFunction W contract method);
               _ ← await (EvStaticCall contract method args)
                     (fun t => staticCall W t contract method args);
               mret tt)
              preflight_catch;
        _ ← settle (getFunction W contract method);
        tx ← await (EvSend contract method args)
               (fun t => send W t contract method args);
        mret tx)
       (write_catch method))
    (modify (set_submitting false)).

End UseContract.

(** ** Overlapping reads

    Calls of [fetchData] interleave at their [await]: a schedule lists, in the
    order they happen, the calls that start and the fetchers that settle. *)
Inductive Step (T : Type) : Type :=
  | Issue
  | Settle (fetchId : N) (outcome : Completion T).
Arguments Issue {T}.
Arguments Settle {T} fetchId outcome.

(** What the callers see: the token a starting call took (for reference), and
    how the promise of a call settled. *)
Inductive Observation (T : Type) : Type :=
  | Issued (fetchId : N)
  | Delivered (fetchId : N) (c : Completion T).
Arguments Issued {T} fetchId.
Arguments Delivered {T} fetchId c.

Fixpoint run_schedule {T} (steps : list (Step T)) (h : Heap)
  : list (Observation T) * Heap :=
  match steps with
  | [] => ([], h)
  | Issue :: rest =>
      match fetchData_begin h with
      | (Normal fetchId, h') =>
          let '(obs, h'') := run_schedule rest h' in (Issued fetchId :: obs, h'')
      | (Throw _, h') => run_schedule rest h'
      end
  | Settle fetchId outcome :: rest =>
      let '(c, h') := fetchData_resume fetchId outcome h in
      let '(obs, h'') := run_schedule rest h' in
      (Delivered fetchId c :: obs, h'')
  end.

(** ** Instances for the examples *)

Fixpoint digits_value (s : string) (acc : Z) : option Z :=
  match s with
  | EmptyString => Some acc
  | String c rest =>
      let n := Z.of_N (Ascii.N_of_ascii c) in
      if (48 <=? n) && (n <=? 57) then digits_value rest (10 * acc + (n - 48))
      else None
  end.

(** A runtime for the examples.  It reads the strings made of decimal digits
    (the empty string reads as zero) and prints the integer-valued numbers;
    any other text is treated as text that is no numeric literal, which is
    exact for the inputs the examples use. *)
#[export] Instance digits_runtime : Runtime := {|
  StringToNumber := fun s =>
    match digits_value s 0 with Some z => Number_of_bigint z | None => NaN end;
  StringToBigInt := fun s => digits_value s 0;
  NumberToString := fun x =>
    match integral_value x with Some z => pretty z | None => "NaN" end;
  ObjectToString := fun _ => "[object Object]";
  BigInt_message := fun v =>
    match v with
    | JsString s => "Cannot convert " +:+ s +:+ " to a BigInt"
    | _ => "The number cannot be converted to a BigInt because it is not an integer"
    end
|}.

(** The number 1.5, as binary64: 6755399441055744 * 2^-52. *)
Definition one_and_a_half : spec_float := S754_finite false 6755399441055744 (-52).

(** The ABI encoding of [Error("Insufficient balance")]. *)
Definition insufficient_balance_payload : string :=
  "0x08c379a0" +:+
  "0000000000000000000000000000000000000000000000000000000000000020" +:+
  "0000000000000000000000000000000000000000000000000000000000000014" +:+
  "496e73756666696369656e742062616c616e6365000000000000000000000000".

(** The error a failed [staticCall] rejects with when the contract reverts
    with that payload. *)
Definition insufficient_balance_revert : JsError :=
  {| name := "Error";
     message := "execution reverted: Insufficient balance";
     data := Some insufficient_balance_payload;
     error := None; info := None |}.

(** A world scripted by the liveness of each endpoint at each tick, the
    outcome of the preflight simulation, the outcome of the submission and
    the decoder of revert payloads; the wallet always answers. *)
Definition scripted_world
  (up : nat -> string -> bool)
  (preflight : Completion JsValue)
  (submission : Completion ContractTransactionResponse)
  (decoder : string -> Completion (option ErrorDescription)) : World :=
  {| JsonRpcProvider_new := fun _ => Normal tt;
     getBlockNumber := fun t p =>
       if up t (provider_url p) then Normal (Z.of_nat t)
       else Throw (Error "could not detect network");
     BrowserProvider_new := fun _ => Normal tt;
     getSigner := fun _ _ =>
       Normal {| signer_address := "0x00000000000000000000000000000000000000aa" |};
     getFunction := fun _ _ => Normal tt;
     call := fun _ _ _ _ => Normal (JsBigInt 7);
     staticCall := fun _ _ _ _ => preflight;
     send := fun _ _ _ _ => submission;
     parseError := fun _ payload => decoder payload |}.

(** A decoder that knows the plain-message error of the example. *)
Definition example_decoder (payload : string)
  : Completion (option ErrorDescription) :=
  if String.eqb payload insufficient_balance_payload
  then Normal (Some {| error_name := "Error";
                       error_args := [JsString "Insufficient balance"] |})
  else Normal None.

Definition accepted_transaction : ContractTransactionResponse :=
  {| hash := "0x01" |}.

(** Every endpoint answers; the preflight reverts with "Insufficient balance". *)
Definition reverting_world : World :=
  scripted_world (fun _ _ => true) (Throw insufficient_balance_revert)
    (Normal accepted_transaction) example_decoder.

(** The first BSC endpoint is down, the others answer. *)
Definition first_endpoint_down : World :=
  scripted_world (fun _ url => negb (String.eqb url "https://bsc-rpc.publicnode.com"))
    (Normal JsUndefined) (Normal accepted_transaction) example_decoder.

(** No endpoint answers. *)
Definition all_endpoints_down : World :=
  scripted_world (fun _ _ => false)
    (Normal JsUndefined) (Normal accepted_transaction) example_decoder.

Definition token_on_bsc : ContractConfig :=
  {| address := "0x00000000000000000000000000000000000000c0";
     abi := ["function transfer(address to, uint256 amount) returns (bool)"];
     chainId := 56 |}.

Definition disconnected_store : Web3Store := {| wallets := [] |}.

Definition wallet_on (chain : Z) : Web3Store :=
  {| wallets := [ {| label := "MetaMask";
                     provider := Some {| eip1193_ref := 0 |};
                     chains := [chain] |} ] |}.

(** The heap of an instance on which two reads have started and none has
    settled. *)
Definition two_reads_started : Heap :=
  set_loading true (set_latestFetchId 2%N initial_heap).

(** ** Vocabulary of the statements *)

#[export] Instance Eip1193Provider_eq_dec : EqDecision Eip1193Provider.
Proof. solve_decision. Defined.

(** The heap once [provider.getBlockNumber()] has been awaited. *)
Definition probed (p : JsonRpcProvider) (h : Heap) : Heap :=
  advance (record_event (EvGetBlockNumber p) h).

(** The heap once the handle of a chain has been removed from the cache. *)
Definition evict (chainId : Z) (h : Heap) : Heap :=
  set_providerCache (delete chainId) h.

(** Where the loop over the endpoints starts, when it is reached: at once if
    no handle is cached, after the eviction if the cached handle fails its
    probe, not at all if the cached handle is alive. *)
Definition fall_through (W : World) (chainId : Z) (h : Heap) : option Heap :=
  match providerCache h !! chainId with
  | None => Some h
  | Some p =>
      match getBlockNumber W (tick h) p with
      | Normal _ => None
      | Throw _ => Some (evict chainId (probed p h))
      end
  end.

(** A candidate that fails when tried on heap [h]: the error it fails with,
    at construction or at its probe, and the heap it leaves. *)
Definition refusal (W : World) (h : Heap) (endpoint : string)
  : option (JsError * Heap) :=
  match JsonRpcProvider_new W endpoint with
  | Throw e => Some (e, h)
  | Normal _ =>
      let p := {| provider_ref := next_ref h; provider_url := endpoint |} in
      match getBlockNumber W (tick h) p with
      | Throw e => Some (e, probed p (allocate h))
      | Normal _ => None
      end
  end.

(** All of [endpoints] fail when tried one after the other from [h]; each
    failure is recorded as a warning.  The result is the heap they leave. *)
Fixpoint after_failures (W : World) (endpoints : list string) (h : Heap)
  : option Heap :=
  match endpoints with
  | [] => Some h
  | endpoint :: rest =>
      match refusal W h endpoint with
      | Some (e, h') =>
          after_failures W rest
            (record_event (EvConsoleWarn (endpoint_failed_message endpoint) e) h')
      | None => None
      end
  end.

(** The warnings among the events, in order. *)
Definition warnings (evs : list Event) : list string :=
  omap (fun ev => match ev with EvConsoleWarn msg _ => Some msg | _ => None end) evs.

(** The network calls among the events, in order. *)
Definition network_calls (evs : list Event) : list Event :=
  List.filter is_network_call evs.

(** Every cached handle was built from an endpoint configured for its chain. *)
Definition cache_configured (h : Heap) : Prop :=
  forall (chain : Z) (p : JsonRpcProvider),
    providerCache h !! chain = Some p -> provider_url p ∈ getRpcEndpoints chain.

(** An event that does not touch the public pool and, when it is a request,
    goes through the channel of the connected wallet. *)
Definition through_wallet (store : Web3Store) (ev : Event) : bool :=
  match ev with
  | EvGetBlockNumber _ => false
  | EvCall _ _ _ => false
  | EvGetSigner p => bool_decide (wallet_provider store = Some p)
  | EvStaticCall c _ _ | EvSend c _ _ =>
      match runner c with
      | RunnerSigner p _ => bool_decide (wallet_provider store = Some p)
      | _ => false
      end
  | EvConsoleWarn _ _ | EvConsoleError _ _ => true
  end.

(** The signer is connected in the sense of [getWriteContract]: a wallet is
    connected and exposes its channel. *)
Definition signer_connected (store : Web3Store) : bool :=
  web3Store.isConnected store && bool_decide (is_Some (wallet_provider store)).

(** Several events recorded one after the other. *)
Definition record_events (evs : list Event) (h : Heap) : Heap :=
  foldl (fun h' ev => record_event ev h') h evs.

(** What the catch block of [write] prints before it rethrows. *)
Definition write_error_report (method : string) (e : JsError) : Event :=
  EvConsoleError ("[useContract] Write error (" +:+ method +:+ "):") (Some e).

(** ** utils/string.ts *)

(** The position an index of [slice] stands for in a string of [len]
    characters: counted from the end when negative, and kept within the
    string. *)
Definition slice_index (len i : Z) : Z :=
  if i <? 0 then Z.max (len + i) 0 else Z.min i len.

(** [s.slice(start, end)] with integer arguments; [None] is an omitted
    [end].  Positions count the units of the string, which for an address
    are its characters. *)
Definition slice (s : string) (start : Z) (end_ : option Z) : string :=
  let len := Z.of_nat (String.length s) in
  let from := slice_index len start in
  let to := match end_ with
            | Some e => slice_index len e
            | None => len
            end in
  substring (Z.to_nat from) (Z.to_nat (Z.max (to - from) 0)) s.

Definition shortenAddress (address : string) (start end_ : Z) : string :=
  if String.eqb address EmptyString then EmptyString
  else slice address 0 (Some start) +:+ "..." +:+ slice address end_ None.

(** The defaults of [start] and [end]. *)
Definition shortenAddress_start : Z := 6.
Definition shortenAddress_end : Z := -4.

(** ** config/chains.ts *)

Definition hex_digit (d : N) : Ascii.ascii :=
  match d with
  | 0 => "0" | 1 => "1" | 2 => "2" | 3 => "3" | 4 => "4" | 5 => "5" | 6 => "6"
  | 7 => "7" | 8 => "8" | 9 => "9" | 10 => "a" | 11 => "b" | 12 => "c"
  | 13 => "d" | 14 => "e" | _ => "f"
  end%N%char.

Fixpoint hex_go (fuel : nat) (n : N) (acc : string) : string :=
  match fuel with
  | O => acc
  | S fuel' =>
      if (n =? 0)%N then acc
      else hex_go fuel' (n / 16)%N (String (hex_digit (n mod 16)%N) acc)
  end.

Definition hex_of_N (n : N) : string :=
  if (n =? 0)%N then "0" else hex_go (N.size_nat n) n EmptyString.

(** [n.toString(16)] for an integer-valued number. *)
Definition toString16 (n : Z) : string :=
  match n with
  | Z0 => "0"
  | Zpos p => hex_of_N (Npos p)
  | Zneg p => "-" +:+ hex_of_N (Npos p)
  end.

Module chains.

Record Chain := {
  id : string;
  token : string;
  label : string;
  rpcUrl : string
}.

Definition CHAINS : list Chain := [
  {| id := "0x1"; token := "ETH"; label := "Ethereum Mainnet";
     rpcUrl := "https://ethereum-rpc.publicnode.com" |};
  {| id := "0x38"; token := "BNB"; label := "BSC Mainnet";
     rpcUrl := "https://bsc-rpc.publicnode.com" |};
  {| id := "0x61"; token := "tBNB"; label := "BSC Testnet";
     rpcUrl := "https://bsc-testnet-rpc.publicnode.com" |};
  {| id := "0x89"; token := "MATIC"; label := "Polygon";
     rpcUrl := "https://polygon-rpc.com" |};
  {| id := "0xa4b1"; token := "ETH"; label := "Arbitrum One";
     rpcUrl := "https://arb1.arbitrum.io/rpc" |};
  {| id := "0x2105"; token := "ETH"; label := "Base";
     rpcUrl := "https://mainnet.base.org" |}
].

(** The argument of the helpers, a [string | number]. *)
Inductive ChainKey : Type :=
  | KeyNumber (n : Z)
  | KeyString (s : string).

(** Helper to get chain by ID *)
Definition getChainById (chainId : ChainKey) : option Chain :=
  let wanted := match chainId with
                | KeyNumber n => "0x" +:+ toString16 n
                | KeyString s => s
                end in
  List.find (fun chain => String.eqb (id chain) wanted) CHAINS.

(** Helper to get RPC URL for chain *)
Definition getRpcUrl (chainId : ChainKey) : option string :=
  option_map rpcUrl (getChainById chainId).

End chains.

(** ** Vocabulary of the further statements *)

(** The value of a string of hexadecimal digits, read after [acc]. *)
Definition hex_digit_value (c : Ascii.ascii) : N :=
  let n := Ascii.N_of_ascii c in
  if (n <? 58)%N then (n - 48)%N else (n - 87)%N.

Fixpoint hex_value (s : string) (acc : N) : N :=
  match s with
  | EmptyString => acc
  | String c rest => hex_value rest (16 * acc + hex_digit_value c)%N
  end.

(** The fetcher that [read] hands to [fetchData]. *)
Definition read_fetcher (W : World) (config : ContractConfig) (store : Web3Store)
  (method : string) (args : list JsValue) : M JsValue :=
  contract ← getReadContract W config store;
  await (EvCall contract method args) (fun t => call W t contract method args).

(** The contract [getReadContract] and [getWriteContract] build on a runner. *)
Definition contract_on (config : ContractConfig) (r : Runner) : Contract :=
  {| target := address config; interface := abi config; runner := r |}.

(** The condition under which [getReadContract] tries the wallet's channel. *)
Definition wallet_serves (config : ContractConfig) (store : Web3Store) : bool :=
  web3Store.isConnected store
  && same_chain (web3Store.chainId store) (chainId config)
  && bool_decide (is_Some (wallet_provider store)).

(** [getRpcProvider] seen from [getReadContract]: the provider wrapped in a
    contract, or the error. *)
Definition contract_from_pool (W : World) (config : ContractConfig) (h : Heap)
  : Completion Contract * Heap :=
  match getRpcProvider W (chainId config) h with
  | (Normal p, h') => (Normal (contract_on config (RunnerRpc p)), h')
  | (Throw e, h') => (Throw e, h')
  end.

(** The state of the [useContract] instance is the same in two heaps. *)
Definition same_instance (h h' : Heap) : Prop :=
  latestFetchId h' = latestFetchId h /\
  loading h' = loading h /\
  submitting h' = submitting h.

(** The reads started in a schedule, and the tokens they were given. *)
Definition count_issues {T} (steps : list (Step T)) : nat :=
  length (List.filter (fun s => match s with Issue => true | Settle _ _ => false end)
            steps).

Definition issued {T} (obs : list (Observation T)) : list N :=
  omap (fun o => match o with Issued fetchId => Some fetchId | Delivered _ _ => None end)
       obs.

(** The tokens [first + 1], ..., [first + count]. *)
Definition tokens_after (first : N) (count : nat) : list N :=
  map (fun i => (first + N.of_nat i)%N) (seq 1 count).

(** The events a heap has gained since an earlier one. *)
Definition events_since (h h' : Heap) : list Event :=
  drop (length (events h)) (events h').

(** The events of the endpoint pool: probes and warnings. *)
Definition is_pool_event (ev : Event) : bool :=
  match ev with
  | EvGetBlockNumber _ | EvConsoleWarn _ _ => true
  | _ => false
  end.

(** The wallet refuses the transaction it is asked to send. *)
Definition rejecting_wallet : World :=
  scripted_world (fun _ _ => true) (Normal JsUndefined)
    (Throw (Error "user rejected action")) example_decoder.

(** ethers refuses the channel of the wallet; the endpoints answer. *)
Definition broken_channel : World :=
  {| JsonRpcProvider_new := fun _ => Normal tt;
     getBlockNumber := fun t _ => Normal (Z.of_nat t);
     BrowserProvider_new := fun _ => Throw (Error "invalid EIP-1193 provider");
     getSigner := fun _ _ => Throw (Error "invalid EIP-1193 provider");
     getFunction := fun _ _ => Normal tt;
     call := fun _ _ _ _ => Normal (JsBigInt 7);
     staticCall := fun _ _ _ _ => Normal JsUndefined;
     send := fun _ _ _ _ => Normal accepted_transaction;
     parseError := fun _ payload => example_decoder payload |}.

(** * Properties *)

Ltac unfold_M :=
  unfold mbind, M_bind, mret, M_ret, throw, settle, gets, modify,
    try_catch, try_finally, await, outcome_of, console_warn, console_error in *.

(** ** Type conversion helpers *)

Section TypeConversionFacts.
Context `{Runtime}.

Lemma asBoolean_of_boolean (b fallback : bool) :
  asBoolean (JsBoolean b) fallback = b.
Proof. reflexivity. Qed.

Lemma asString_of_string (s fallback : string) :
  asString (JsString s) fallback = s.
Proof. reflexivity. Qed.

Lemma asBigInt_of_string_never_throws (s : string) (fallback : Z) :
  exists z, asBigInt (JsString s) fallback = Normal z.
Proof.
  unfold asBigInt, BigInt_of_string.
  destruct (StringToBigInt s) as [z|]; simpl; eauto.
Qed.

(** X19: [asBigInt] throws exactly on the numbers that are not integers: the
    conversion of a number is the one path without a [try]. *)
Lemma asBigInt_throws_iff (v : JsValue) (fallback : Z) :
  is_throw (asBigInt v fallback) = true <->
  exists x, v = JsNumber x /\ integral_value x = None.
Proof.
  split.
  - destruct v as [| |b|x|z|s|d|r|r]; simpl; try discriminate.
    + unfold BigInt_of_number.
      destruct (integral_value x) eqn:Hx; simpl; [discriminate|].
      intros _. exists x. auto.
    + destruct (asBigInt_of_string_never_throws s fallback) as [z Hz].
      simpl in Hz. rewrite Hz. discriminate.
  - intros (x & -> & Hx). simpl. unfold BigInt_of_number. now rewrite Hx.
Qed.

Lemma integral_value_nan : integral_value NaN = None.
Proof. reflexivity. Qed.

Lemma integral_value_one_and_a_half : integral_value one_and_a_half = None.
Proof. reflexivity. Qed.

(** C6, at the input where the code departs from it: [asBigInt(1.5)] returns
    no value and no fallback; the RangeError of [BigInt(1.5)] escapes. *)
Theorem asBigInt_throws_on_fractional_number (fallback : Z) :
  asBigInt (JsNumber one_and_a_half) fallback
  = Throw (RangeError (BigInt_message (JsNumber one_and_a_half))).
Proof. reflexivity. Qed.

(** C10: the fallback of [asNumber] is its result when the input is neither a
    number, a bigint nor a string, and plays no part otherwise; a string that
    does not read as a number gives NaN. *)
Theorem asNumber_fallback_only_for_other_types (v : JsValue) (fallback : spec_float) :
  (typeof v ∉ ["number"; "bigint"; "string"] -> asNumber v fallback = fallback) /\
  (typeof v ∈ ["number"; "bigint"; "string"] ->
     forall fallback', asNumber v fallback' = asNumber v fallback) /\
  (forall s, v = JsString s -> StringToNumber s = NaN -> asNumber v fallback = NaN).
Proof.
  split; [|split].
  - intros Hty. destruct v; simpl in *; try reflexivity; exfalso; apply Hty;
      repeat constructor.
  - intros Hty fallback'. destruct v; simpl in *; try reflexivity; exfalso;
      repeat (apply elem_of_cons in Hty as [Hty|Hty]; [discriminate Hty|]);
      inversion Hty.
  - intros s -> Hs. simpl. exact Hs.
Qed.

End TypeConversionFacts.

Lemma asNumber_fallback_only_for_other_types_witness :
  asNumber (JsString "abc") (S754_zero false) = NaN.
Proof.
  apply (proj2 (proj2 (asNumber_fallback_only_for_other_types
                         (JsString "abc") (S754_zero false))) "abc");
    reflexivity.
Defined.

(** ** Race protection of the reads *)

Lemma fetchData_begin_eq (h : Heap) :
  fetchData_begin h
  = (Normal (increment (latestFetchId h)),
     set_loading true (set_latestFetchId (increment (latestFetchId h)) h)).
Proof. reflexivity. Qed.

(** Below 2^53 every new token is above all the tokens issued before it. *)
Lemma fetchData_begin_fresh (h : Heap) :
  (latestFetchId h < 2 ^ 53)%N ->
  (latestFetchId h < latestFetchId (snd (fetchData_begin h)))%N.
Proof.
  intros Hlt. rewrite fetchData_begin_eq. simpl. unfold increment.
  apply N.ltb_lt in Hlt. rewrite Hlt. lia.
Qed.

Lemma fetchData_resume_current {T} (fetchId : N) (outcome : Completion T) (h : Heap) :
  fetchId = latestFetchId h ->
  fetchData_resume fetchId outcome h = (outcome, set_loading false h).
Proof.
  intros ->. unfold fetchData_resume. unfold_M.
  rewrite N.eqb_refl. destruct outcome; simpl; now rewrite ?N.eqb_refl.
Qed.

Lemma fetchData_resume_stale {T} (fetchId : N) (outcome : Completion T) (h : Heap) :
  fetchId <> latestFetchId h ->
  fetchData_resume fetchId outcome h = (Throw (Error "Stale fetch result"), h).
Proof.
  intros Hne. apply N.eqb_neq in Hne.
  unfold fetchData_resume. unfold_M.
  destruct outcome; simpl; rewrite ?Hne; simpl; rewrite ?Hne; reflexivity.
Qed.

(** X20: a read resolves, and then with the value fetched, exactly when its
    token is still the highest issued at the moment its fetcher settles. *)
Lemma fetchData_resume_resolves_iff
  {T} (fetchId : N) (outcome : Completion T) (h : Heap) (value : T) :
  fst (fetchData_resume fetchId outcome h) = Normal value <->
  outcome = Normal value /\ fetchId = latestFetchId h.
Proof.
  destruct (N.eq_dec fetchId (latestFetchId h)) as [Heq|Hne].
  - rewrite fetchData_resume_current by exact Heq. simpl. tauto.
  - rewrite fetchData_resume_stale by exact Hne. simpl.
    split; [discriminate|tauto].
Qed.

(** The reading of C1 that the code refutes: of two overlapping reads, the
    one issued first and settling last does not resolve to its caller with
    the value it fetched. *)
Lemma earlier_read_settling_last_is_not_resolved :
  ~ exists h,
      run_schedule
        [Issue; Issue; Settle 2%N (Normal "B"); Settle 1%N (Normal "A")]
        initial_heap
      = ([Issued 1%N; Issued 2%N;
          Delivered 2%N (Normal "B"); Delivered 1%N (Normal "A")], h).
Proof. intros [h Hrun]. vm_compute in Hrun. discriminate Hrun. Qed.

(** C1, amended: a read that completes successfully after a newer read has
    been issued is discarded altogether; its own caller is rejected with
    "Stale fetch result" and the state of the instance is left as it was. *)
Theorem stale_success_is_discarded_and_rejected
  {T} (fetchId : N) (value : T) (h : Heap) :
  fetchId <> latestFetchId h ->
  fetchData_resume fetchId (Normal value) h
  = (Throw (Error "Stale fetch result"), h).
Proof. apply fetchData_resume_stale. Qed.

Lemma stale_success_is_discarded_and_rejected_witness :
  1%N <> latestFetchId two_reads_started /\
  fetchData_resume 1%N (Normal (JsString "A")) two_reads_started
  = (Throw (Error "Stale fetch result"), two_reads_started).
Proof.
  split; [discriminate|].
  apply (stale_success_is_discarded_and_rejected 1%N (JsString "A") two_reads_started).
  discriminate.
Defined.

(** The reading of C3 that the code refutes: the error of a read that a newer
    one has overtaken does not reach its caller. *)
Lemma stale_error_is_not_delivered :
  fst (fetchData_resume (T:=JsValue) 1%N (Throw (Error "timeout")) two_reads_started)
  <> Throw (Error "timeout").
Proof. vm_compute. discriminate. Qed.

(** C3, amended: a read that throws always rejects to its own caller; the
    error it rejects with is the one thrown by the invocation when its token
    is still the highest issued, and "Stale fetch result" otherwise. *)
Theorem read_error_delivered_unless_stale
  {T} (fetchId : N) (e : JsError) (h : Heap) :
  fst (fetchData_resume (T:=T) fetchId (Throw e) h)
  = Throw (if (fetchId =? latestFetchId h)%N then e else Error "Stale fetch result").
Proof.
  destruct (N.eqb_spec fetchId (latestFetchId h)) as [Heq|Hne].
  - now rewrite fetchData_resume_current.
  - now rewrite fetchData_resume_stale.
Qed.

(** C7: a completion clears the loading indicator when its token is the
    highest issued at that moment, and leaves the indicator, and the whole
    state of the instance, unchanged when it is not. *)
Theorem loading_cleared_iff_token_is_latest
  {T} (fetchId : N) (outcome : Completion T) (h : Heap) :
  snd (fetchData_resume fetchId outcome h)
  = (if (fetchId =? latestFetchId h)%N then set_loading false h else h)
  /\ loading (snd (fetchData_resume fetchId outcome h))
     = (if (fetchId =? latestFetchId h)%N then false else loading h).
Proof.
  destruct (N.eqb_spec fetchId (latestFetchId h)) as [Heq|Hne].
  - now rewrite fetchData_resume_current.
  - now rewrite fetchData_resume_stale.
Qed.

(** The scenario of two overlapping reads, A issued first and settling last:
    B is delivered and clears the indicator; A is rejected as stale. *)
Example two_overlapping_reads :
  run_schedule
    [Issue; Issue; Settle 2%N (Normal "B"); Settle 1%N (Normal "A")]
    initial_heap
  = ([Issued 1%N; Issued 2%N;
      Delivered 2%N (Normal "B");
      Delivered 1%N (Throw (Error "Stale fetch result"))],
     set_latestFetchId 2%N initial_heap).
Proof. reflexivity. Qed.


(** ** Endpoint pool and provider cache *)

Lemma RPC_ENDPOINTS_configured (chain : Z) :
  chain ∈ [56; 97; 1; 137; 42161; 8453] <-> is_Some (RPC_ENDPOINTS !! chain).
Proof.
  unfold RPC_ENDPOINTS. cbn [list_to_map foldr].
  split.
  - intros Hin.
    repeat (apply elem_of_cons in Hin as [->|Hin]; [now eexists|]).
    inversion Hin.
  - intros [endpoints Hlook].
    destruct (decide (chain ∈ [56; 97; 1; 137; 42161; 8453])) as [Hin|Hout];
      [exact Hin|exfalso].
    repeat (rewrite lookup_insert_ne in Hlook
              by (intros <-; apply Hout; repeat constructor)).
    rewrite lookup_empty in Hlook. discriminate.
Qed.

Lemma getRpcEndpoints_lookup (chain : Z) (endpoints : list string) :
  RPC_ENDPOINTS !! chain = Some endpoints -> getRpcEndpoints chain = endpoints.
Proof. unfold getRpcEndpoints. now intros ->. Qed.

(** No configured pool is empty. *)
Lemma RPC_ENDPOINTS_nonempty (chain : Z) (endpoints : list string) :
  RPC_ENDPOINTS !! chain = Some endpoints -> endpoints <> [].
Proof.
  intros Hlook.
  assert (Hin : chain ∈ [56; 97; 1; 137; 42161; 8453])
    by (apply RPC_ENDPOINTS_configured; eauto).
  repeat (apply elem_of_cons in Hin as [->|Hin];
          [vm_compute in Hlook; injection Hlook as <-; discriminate|]).
  inversion Hin.
Qed.

Lemma getRpcEndpoints_empty_iff (chain : Z) :
  getRpcEndpoints chain = [] <-> RPC_ENDPOINTS !! chain = None.
Proof.
  unfold getRpcEndpoints.
  destruct (RPC_ENDPOINTS !! chain) as [endpoints|] eqn:Hlook; [|tauto].
  split; [|discriminate].
  intros ->. now apply RPC_ENDPOINTS_nonempty in Hlook.
Qed.

Section RpcProviderFacts.
Variable W : World.

Lemma try_endpoint_refused (chain : Z) (endpoint : string) (h h' : Heap) (e : JsError) :
  refusal W h endpoint = Some (e, h') ->
  try_endpoint W chain endpoint h = (Throw e, h').
Proof.
  unfold refusal, try_endpoint, new_JsonRpcProvider, provider_getBlockNumber.
  unfold_M.
  destruct (JsonRpcProvider_new W endpoint) as [[]|e0]; simpl.
  - destruct (getBlockNumber W (tick h) _) as [n|e1]; [discriminate|].
    now intros [= <- <-].
  - now intros [= <- <-].
Qed.

Lemma try_endpoint_live (chain : Z) (endpoint : string) (h : Heap) :
  refusal W h endpoint = None ->
  let p := {| provider_ref := next_ref h; provider_url := endpoint |} in
  try_endpoint W chain endpoint h
  = (Normal p, set_providerCache (insert chain p) (probed p (allocate h))).
Proof.
  unfold refusal, try_endpoint, new_JsonRpcProvider, provider_getBlockNumber.
  unfold_M.
  destruct (JsonRpcProvider_new W endpoint) as [[]|e0]; simpl; [|discriminate].
  destruct (getBlockNumber W (tick h) _) as [n|e1]; [|discriminate].
  reflexivity.
Qed.

(** The loop throws its final error exactly when every candidate failed. *)
Lemma try_endpoints_all_fail (chain : Z) (endpoints : list string) (h h1 : Heap) :
  after_failures W endpoints h = Some h1 ->
  try_endpoints W chain endpoints h = (Throw (Error (all_failed_message chain)), h1).
Proof.
  revert h. induction endpoints as [|endpoint rest IH]; intros h; simpl.
  - now intros [= ->].
  - destruct (refusal W h endpoint) as [[e h']|] eqn:Href; [|discriminate].
    intros Hrest. unfold try_catch.
    rewrite (try_endpoint_refused chain _ _ _ _ Href).
    unfold_M. simpl. now apply IH.
Qed.

(** The loop returns the first candidate that does not fail, after the
    failures of all the candidates configured before it, and caches it. *)
Lemma try_endpoints_first_live
  (chain : Z) (pre : list string) (endpoint : string) (post : list string)
  (h h1 : Heap) :
  after_failures W pre h = Some h1 ->
  refusal W h1 endpoint = None ->
  let p := {| provider_ref := next_ref h1; provider_url := endpoint |} in
  try_endpoints W chain (pre ++ endpoint :: post) h
  = (Normal p, set_providerCache (insert chain p) (probed p (allocate h1))).
Proof.
  revert h. induction pre as [|candidate pre IH]; intros h; simpl.
  - intros [= ->] Hlive. unfold try_catch.
    now rewrite (try_endpoint_live chain _ _ Hlive).
  - destruct (refusal W h candidate) as [[e h']|] eqn:Href; [|discriminate].
    intros Hrest Hlive. unfold try_catch.
    rewrite (try_endpoint_refused chain _ _ _ _ Href).
    unfold_M. simpl. now apply IH.
Qed.

(** The two cases above are all the cases. *)
Lemma endpoints_fail_or_first_live (endpoints : list string) (h : Heap) :
  (exists h1, after_failures W endpoints h = Some h1) \/
  (exists (pre : list string) (endpoint : string) (post : list string) (h1 : Heap),
      endpoints = (pre ++ endpoint :: post)%list /\
      after_failures W pre h = Some h1 /\
      refusal W h1 endpoint = None).
Proof.
  revert h. induction endpoints as [|endpoint rest IH]; intros h; simpl.
  - left. eauto.
  - destruct (refusal W h endpoint) as [[e h']|] eqn:Href.
    + destruct (IH (record_event (EvConsoleWarn (endpoint_failed_message endpoint) e) h'))
        as [[h1 Hall]|(pre & live & post & h1 & -> & Hpre & Hlive)].
      * left. eauto.
      * right. exists (endpoint :: pre), live, post, h1.
        split; [reflexivity|]. split; [|exact Hlive].
        simpl. now rewrite Href.
    + right. exists [], endpoint, rest, h. auto.
Qed.

Lemma refusal_cache (h h' : Heap) (endpoint : string) (e : JsError) :
  refusal W h endpoint = Some (e, h') -> providerCache h' = providerCache h.
Proof.
  unfold refusal.
  destruct (JsonRpcProvider_new W endpoint); [|now intros [= _ <-]].
  destruct (getBlockNumber W _ _); [discriminate|now intros [= _ <-]].
Qed.

Lemma refusal_warnings (h h' : Heap) (endpoint : string) (e : JsError) :
  refusal W h endpoint = Some (e, h') ->
  warnings (events h') = warnings (events h).
Proof.
  unfold refusal.
  destruct (JsonRpcProvider_new W endpoint); [|now intros [= _ <-]].
  destruct (getBlockNumber W _ _); [discriminate|intros [= _ <-]].
  simpl. unfold warnings. rewrite omap_app. simpl. now rewrite app_nil_r.
Qed.

Lemma after_failures_cache (endpoints : list string) (h h1 : Heap) :
  after_failures W endpoints h = Some h1 -> providerCache h1 = providerCache h.
Proof.
  revert h. induction endpoints as [|endpoint rest IH]; intros h; simpl.
  - now intros [= ->].
  - destruct (refusal W h endpoint) as [[e h']|] eqn:Href; [|discriminate].
    intros Hrest. apply IH in Hrest. rewrite Hrest. simpl.
    eapply refusal_cache, Href.
Qed.

(** The failures are reported one warning each, in the configured order. *)
Lemma after_failures_warnings (endpoints : list string) (h h1 : Heap) :
  after_failures W endpoints h = Some h1 ->
  warnings (events h1)
  = warnings (events h) ++ map endpoint_failed_message endpoints.
Proof.
  revert h. induction endpoints as [|endpoint rest IH]; intros h; simpl.
  - intros [= ->]. now rewrite app_nil_r.
  - destruct (refusal W h endpoint) as [[e h']|] eqn:Href; [|discriminate].
    intros Hrest. apply IH in Hrest. rewrite Hrest. simpl.
    unfold warnings at 1. rewrite omap_app. simpl.
    fold (warnings (events h')). rewrite (refusal_warnings _ _ _ _ Href).
    now rewrite <- app_assoc.
Qed.

Lemma probe_cached_eq (chain : Z) (h : Heap) :
  probe_cached W chain h
  = match providerCache h !! chain with
    | None => (Normal None, h)
    | Some p =>
        match getBlockNumber W (tick h) p with
        | Normal _ => (Normal (Some p), probed p h)
        | Throw _ => (Normal None, evict chain (probed p h))
        end
    end.
Proof.
  unfold probe_cached, provider_getBlockNumber. unfold_M. simpl.
  destruct (providerCache h !! chain) as [p|]; [|reflexivity].
  simpl. now destruct (getBlockNumber W (tick h) p).
Qed.

Lemma getRpcProvider_cached_live (chain : Z) (h : Heap) (p : JsonRpcProvider) (n : Z) :
  providerCache h !! chain = Some p ->
  getBlockNumber W (tick h) p = Normal n ->
  getRpcProvider W chain h = (Normal p, probed p h).
Proof.
  intros Hcached Hlive. unfold getRpcProvider.
  unfold mbind at 1. unfold M_bind.
  now rewrite probe_cached_eq, Hcached, Hlive.
Qed.

Lemma getRpcProvider_fall_through (chain : Z) (h h0 : Heap) :
  fall_through W chain h = Some h0 ->
  getRpcProvider W chain h
  = match RPC_ENDPOINTS !! chain with
    | None | Some [] => (Throw (Error (no_endpoints_message chain)), h0)
    | Some endpoints => try_endpoints W chain endpoints h0
    end.
Proof.
  unfold fall_through, getRpcProvider.
  unfold mbind at 1. unfold M_bind. rewrite probe_cached_eq.
  destruct (providerCache h !! chain) as [p|].
  - destruct (getBlockNumber W (tick h) p); [discriminate|].
    intros [= <-]. now destruct (RPC_ENDPOINTS !! chain) as [[|]|].
  - intros [= <-]. now destruct (RPC_ENDPOINTS !! chain) as [[|]|].
Qed.

Lemma fall_through_evicted (chain : Z) (h : Heap) (p : JsonRpcProvider) :
  fall_through W chain (evict chain (probed p h)) = Some (evict chain (probed p h)).
Proof. unfold fall_through. simpl. now rewrite lookup_delete_eq. Qed.

Lemma fall_through_cache (chain : Z) (h h0 : Heap) :
  fall_through W chain h = Some h0 ->
  providerCache h0 = delete chain (providerCache h).
Proof.
  unfold fall_through.
  destruct (providerCache h !! chain) as [p|] eqn:Hcached.
  - destruct (getBlockNumber W (tick h) p); [discriminate|]. now intros [= <-].
  - intros [= <-]. now rewrite delete_id.
Qed.

(** C4: a cached handle is probed first, returned unchanged when the probe
    succeeds and evicted when it fails, after which the call goes on as one
    without a cached handle; without a cached handle the configured
    endpoints are tried in their order, the failing ones are skipped with a
    warning each, and the first that succeeds is cached and returned. *)
Theorem getRpcProvider_cache_then_ordered_fallback (chainId : Z) (h : Heap) :
  (forall p n,
      providerCache h !! chainId = Some p ->
      getBlockNumber W (tick h) p = Normal n ->
      getRpcProvider W chainId h = (Normal p, probed p h) /\
      providerCache (probed p h) = providerCache h) /\
  (forall p e,
      providerCache h !! chainId = Some p ->
      getBlockNumber W (tick h) p = Throw e ->
      providerCache (evict chainId (probed p h)) !! chainId = None /\
      getRpcProvider W chainId h
      = getRpcProvider W chainId (evict chainId (probed p h))) /\
  (forall pre endpoint post h1,
      providerCache h !! chainId = None ->
      RPC_ENDPOINTS !! chainId = Some (pre ++ endpoint :: post) ->
      after_failures W pre h = Some h1 ->
      refusal W h1 endpoint = None ->
      let p := {| provider_ref := next_ref h1; provider_url := endpoint |} in
      let h' := snd (getRpcProvider W chainId h) in
      fst (getRpcProvider W chainId h) = Normal p /\
      providerCache h' = <[chainId := p]> (providerCache h) /\
      warnings (events h')
      = warnings (events h) ++ map endpoint_failed_message pre).
Proof.
  split; [|split].
  - intros p n Hcached Hlive. split; [|reflexivity].
    eapply getRpcProvider_cached_live; eassumption.
  - intros p e Hcached Hdead. split; [simpl; apply lookup_delete_eq|].
    rewrite (getRpcProvider_fall_through chainId h (evict chainId (probed p h))).
    + now rewrite (getRpcProvider_fall_through chainId _ _
                     (fall_through_evicted chainId h p)).
    + unfold fall_through. now rewrite Hcached, Hdead.
  - intros pre endpoint post h1 Hnone Hpool Hpre Hlive p h'.
    assert (Hrun : getRpcProvider W chainId h
                   = (Normal p,
                      set_providerCache (insert chainId p) (probed p (allocate h1)))).
    { rewrite (getRpcProvider_fall_through chainId h h)
        by (unfold fall_through; now rewrite Hnone).
      rewrite Hpool.
      transitivity (try_endpoints W chainId (pre ++ endpoint :: post) h);
        [now destruct pre|].
      now apply try_endpoints_first_live. }
    subst h'. rewrite Hrun. simpl. split; [reflexivity|]. split.
    + now rewrite (after_failures_cache _ _ _ Hpre).
    + unfold warnings at 1. rewrite omap_app. simpl. rewrite app_nil_r.
      apply (after_failures_warnings _ _ _ Hpre).
Qed.

(** The cache only ever holds handles built from configured endpoints. *)
Lemma getRpcProvider_preserves_cache_configured (chain : Z) (h : Heap) :
  cache_configured h -> cache_configured (snd (getRpcProvider W chain h)).
Proof.
  intros Hinv.
  destruct (fall_through W chain h) as [h0|] eqn:Hfall.
  - assert (Hinv0 : cache_configured h0).
    { intros c q Hq. rewrite (fall_through_cache _ _ _ Hfall) in Hq.
      apply lookup_delete_Some in Hq as [_ Hq]. now apply Hinv. }
    rewrite (getRpcProvider_fall_through _ _ _ Hfall).
    destruct (RPC_ENDPOINTS !! chain) as [endpoints|] eqn:Hpool; [|exact Hinv0].
    destruct (endpoints_fail_or_first_live endpoints h0)
      as [[h1 Hall]|(pre & live & post & h1 & Heq & Hpre & Hlive)].
    + assert (Hgoal : cache_configured h1).
      { intros c q Hq. rewrite (after_failures_cache _ _ _ Hall) in Hq.
        now apply Hinv0. }
      destruct endpoints; [exact Hinv0|].
      now rewrite (try_endpoints_all_fail chain _ _ _ Hall).
    + assert (Hrun := try_endpoints_first_live chain pre live post h0 h1 Hpre Hlive).
      rewrite <- Heq in Hrun. simpl in Hrun.
      destruct endpoints as [|e0 rest]; [now destruct pre|].
      rewrite Hrun. simpl. intros c q Hq. simpl in Hq.
      apply lookup_insert_Some in Hq as [[<- <-]|[_ Hq]].
      * simpl. rewrite (getRpcEndpoints_lookup _ _ Hpool), Heq.
        apply elem_of_app. right. constructor.
      * rewrite (after_failures_cache _ _ _ Hpre) in Hq. now apply Hinv0.
  - unfold fall_through in Hfall.
    destruct (providerCache h !! chain) as [p|] eqn:Hcached; [|discriminate].
    destruct (getBlockNumber W (tick h) p) as [n|] eqn:Hlive; [|discriminate].
    now rewrite (getRpcProvider_cached_live _ _ _ _ Hcached Hlive).
Qed.

Lemma cache_configured_unconfigured (chain : Z) (h : Heap) :
  cache_configured h ->
  getRpcEndpoints chain = [] ->
  providerCache h !! chain = None.
Proof.
  intros Hinv Hempty.
  destruct (providerCache h !! chain) as [p|] eqn:Hcached; [|reflexivity].
  apply Hinv in Hcached. rewrite Hempty in Hcached. inversion Hcached.
Qed.

(** C8: the endpoints of an unconfigured chain are the empty sequence;
    acquiring a connection for a chain without endpoints fails with "No RPC
    endpoints configured", and for a chain whose endpoints all fail, no live
    handle being cached, with "All RPC endpoints failed". *)
Theorem getRpcProvider_errors_by_pool (chainId : Z) (h : Heap) :
  (chainId ∉ [56; 97; 1; 137; 42161; 8453] -> getRpcEndpoints chainId = []) /\
  (cache_configured h ->
   getRpcEndpoints chainId = [] ->
   getRpcProvider W chainId h = (Throw (Error (no_endpoints_message chainId)), h)) /\
  (forall h0 h1,
      getRpcEndpoints chainId <> [] ->
      fall_through W chainId h = Some h0 ->
      after_failures W (getRpcEndpoints chainId) h0 = Some h1 ->
      getRpcProvider W chainId h = (Throw (Error (all_failed_message chainId)), h1)).
Proof.
  split; [|split].
  - intros Hout. apply getRpcEndpoints_empty_iff.
    destruct (RPC_ENDPOINTS !! chainId) as [endpoints|] eqn:Hpool; [|reflexivity].
    exfalso. apply Hout, RPC_ENDPOINTS_configured. eauto.
  - intros Hinv Hempty.
    rewrite (getRpcProvider_fall_through chainId h h).
    + apply getRpcEndpoints_empty_iff in Hempty. now rewrite Hempty.
    + unfold fall_through.
      now rewrite (cache_configured_unconfigured _ _ Hinv Hempty).
  - intros h0 h1 Hpool Hfall Hall.
    rewrite (getRpcProvider_fall_through _ _ _ Hfall).
    unfold getRpcEndpoints in *.
    destruct (RPC_ENDPOINTS !! chainId) as [[|e rest]|]; try congruence.
    now apply try_endpoints_all_fail.
Qed.

End RpcProviderFacts.

Lemma initial_heap_cache_configured : cache_configured initial_heap.
Proof. intros chain p Hp. simpl in Hp. now rewrite lookup_empty in Hp. Qed.

Lemma clearProviderCache_cache_configured (h : Heap) :
  cache_configured (snd (clearProviderCache h)).
Proof. intros chain p Hp. simpl in Hp. now rewrite lookup_empty in Hp. Qed.

(** On BSC with the first endpoint down, a first call skips it and caches the
    second; a later call returns that handle after a probe; and when every
    endpoint has gone down the handle is evicted. *)
Lemma getRpcProvider_cache_then_ordered_fallback_witness :
  let blockrazor := {| provider_ref := 1; provider_url := "https://bsc.blockrazor.xyz" |} in
  let cached := snd (getRpcProvider first_endpoint_down 56 initial_heap) in
  fst (getRpcProvider first_endpoint_down 56 initial_heap) = Normal blockrazor /\
  getRpcProvider first_endpoint_down 56 cached = (Normal blockrazor, probed blockrazor cached) /\
  providerCache (evict 56 (probed blockrazor cached)) !! 56 = None.
Proof.
  intros blockrazor cached.
  set (h1 := default initial_heap
               (after_failures first_endpoint_down
                  ["https://bsc-rpc.publicnode.com"] initial_heap)).
  split; [|split].
  - apply (proj2 (proj2 (getRpcProvider_cache_then_ordered_fallback
                           first_endpoint_down 56 initial_heap))
             ["https://bsc-rpc.publicnode.com"] "https://bsc.blockrazor.xyz"
             ["https://bsc.drpc.org"] h1); reflexivity.
  - apply (proj1 (getRpcProvider_cache_then_ordered_fallback
                    first_endpoint_down 56 cached) blockrazor 2); reflexivity.
  - apply (proj1 (proj2 (getRpcProvider_cache_then_ordered_fallback
                           all_endpoints_down 56 cached))
             blockrazor (Error "could not detect network")); reflexivity.
Defined.

(** Chain 5 is not configured; on BSC with every endpoint down all three
    candidates are tried and the call fails. *)
Lemma getRpcProvider_errors_by_pool_witness :
  getRpcEndpoints 5 = [] /\
  getRpcProvider all_endpoints_down 5 initial_heap
  = (Throw (Error "No RPC endpoints configured for chain ID 5"), initial_heap) /\
  fst (getRpcProvider all_endpoints_down 56 initial_heap)
  = Throw (Error "All RPC endpoints failed for chain ID 56").
Proof.
  split; [|split].
  - apply (proj1 (getRpcProvider_errors_by_pool all_endpoints_down 5 initial_heap)).
    intros Hin.
    repeat (apply elem_of_cons in Hin as [Hin|Hin]; [discriminate Hin|]).
    inversion Hin.
  - apply (proj1 (proj2 (getRpcProvider_errors_by_pool all_endpoints_down 5 initial_heap))).
    + exact initial_heap_cache_configured.
    + reflexivity.
  - set (h1 := default initial_heap
                 (after_failures all_endpoints_down (getRpcEndpoints 56) initial_heap)).
    rewrite (proj2 (proj2 (getRpcProvider_errors_by_pool all_endpoints_down 56 initial_heap))
               initial_heap h1); [reflexivity|discriminate|reflexivity|reflexivity].
Defined.

(** ** Connection selection and writes *)

Lemma events_record_events (evs : list Event) (h : Heap) :
  events (record_events evs h) = events h ++ evs.
Proof.
  revert h. induction evs as [|ev evs IH]; intros h; simpl.
  - now rewrite app_nil_r.
  - unfold record_events in *. simpl. rewrite IH. simpl. now rewrite <- app_assoc.
Qed.

Lemma providerCache_record_events (evs : list Event) (h : Heap) :
  providerCache (record_events evs h) = providerCache h.
Proof.
  revert h. induction evs as [|ev evs IH]; intros h; [reflexivity|].
  unfold record_events in *. simpl. now rewrite IH.
Qed.

Lemma extractRevertData_Error (msg : string) :
  extractRevertData (Error msg) = None.
Proof. reflexivity. Qed.

Section UseContractFacts.
Context `{Runtime}.
Variable W : World.
Variable config : ContractConfig.

(** Whatever the decoder finds, the preflight handler rethrows the error of
    the simulation: the decoded error is thrown inside a [try] whose [catch]
    replaces it. *)
Lemma preflight_catch_rethrows (e : JsError) (h : Heap) :
  preflight_catch W config e h = (Throw e, h).
Proof.
  unfold preflight_catch. destruct (truthy (extractRevertData e)); [|reflexivity].
  unfold_M. now destruct (parseError W _ _).
Qed.

(** So does the handler that closes [write], after printing. *)
Lemma write_catch_rethrows (method : string) (e : JsError) (h : Heap) :
  exists evs,
    write_catch W config method e h = (Throw e, record_events evs h) /\
    forallb (fun ev => negb (is_network_call ev)) evs = true.
Proof.
  unfold write_catch. destruct (truthy (extractRevertData e)).
  - unfold_M. destruct (parseError W _ _) as [decoded|e'].
    + eexists [_; _]. split; reflexivity.
    + eexists [_]. split; reflexivity.
  - eexists [_]. split; reflexivity.
Qed.

Lemma write_catch_plain_error (method : string) (msg : string) (h : Heap) :
  write_catch W config method (Error msg) h
  = (Throw (Error msg), record_event (write_error_report method (Error msg)) h).
Proof. reflexivity. Qed.

Lemma getWriteContract_not_connected (store : Web3Store) (h : Heap) :
  web3Store.isConnected store = false \/ wallet_provider store = None ->
  getWriteContract W config store h = (Throw (Error "Wallet not connected"), h).
Proof.
  unfold getWriteContract. intros [-> | ->]; [reflexivity|].
  now rewrite orb_true_r.
Qed.

Lemma getWriteContract_wrong_network (store : Web3Store) (h : Heap) :
  web3Store.isConnected store = true ->
  is_Some (wallet_provider store) ->
  same_chain (web3Store.chainId store) (chainId config) = false ->
  getWriteContract W config store h
  = (Throw (Error (wrong_network_message (chainId config))), h).
Proof.
  unfold getWriteContract. intros -> Hprov ->.
  now rewrite bool_decide_true.
Qed.

(** A write contract is bound to a signer obtained from the channel of the
    connected wallet; the provider cache is neither read nor written. *)
Lemma getWriteContract_inv (store : Web3Store) (h h' : Heap) (c : Contract) :
  getWriteContract W config store h = (Normal c, h') ->
  exists p s,
    wallet_provider store = Some p /\
    web3Store.isConnected store = true /\
    same_chain (web3Store.chainId store) (chainId config) = true /\
    getSigner W (tick h) p = Normal s /\
    c = {| target := address config; interface := abi config;
           runner := RunnerSigner p s |} /\
    h' = advance (record_event (EvGetSigner p) h).
Proof.
  unfold getWriteContract, new_BrowserProvider.
  destruct (web3Store.isConnected store); [|discriminate].
  destruct (wallet_provider store) as [p|] eqn:Hprov;
    [rewrite bool_decide_true by eauto|discriminate].
  simpl. destruct (same_chain _ _); [|discriminate].
  simpl. unfold_M. destruct (BrowserProvider_new W p); [|discriminate].
  simpl. destruct (getSigner W (tick h) p) as [s|] eqn:Hsigner; [|discriminate].
  intros [= <- <-]. exists p, s. auto 10.
Qed.

Lemma getWriteContract_throw_inv (store : Web3Store) (h h' : Heap) (e : JsError) :
  getWriteContract W config store h = (Throw e, h') ->
  h' = h \/
  exists p, wallet_provider store = Some p /\
            h' = advance (record_event (EvGetSigner p) h).
Proof.
  unfold getWriteContract, new_BrowserProvider.
  destruct (_ || _); [intros [= _ <-]; now left|].
  destruct (negb _); [intros [= _ <-]; now left|].
  destruct (wallet_provider store) as [p|] eqn:Hprov; [|intros [= _ <-]; now left].
  unfold_M. destruct (BrowserProvider_new W p); [|intros [= _ <-]; now left].
  simpl. destruct (getSigner W (tick h) p); [discriminate|].
  intros [= _ <-]. right. eauto.
Qed.

(** What [write] does, step by step.  The decoder has no place in it: both
    handlers end by rethrowing the error they caught. *)
Lemma write_unfold (store : Web3Store) (method : string) (args : list JsValue)
  (h : Heap) :
  write W config store method args h
  = let '(c, h') :=
      match getWriteContract W config store (set_submitting true h) with
      | (Throw e, h1) => write_catch W config method e h1
      | (Normal contract, h1) =>
          let h2 := advance (record_event (EvStaticCall contract method args) h1) in
          let h3 := advance (record_event (EvSend contract method args) h2) in
          match getFunction W contract method with
          | Throw e => write_catch W config method e h1
          | Normal _ =>
              match staticCall W (tick h1) contract method args with
              | Throw e => write_catch W config method e h2
              | Normal _ =>
                  match send W (tick h2) contract method args with
                  | Throw e => write_catch W config method e h3
                  | Normal tx => (Normal tx, h3)
                  end
              end
          end
      end in
    (c, set_submitting false h').
Proof.
  unfold write. unfold_M. simpl.
  destruct (getWriteContract W config store (set_submitting true h))
    as [[contract|e] h1]; [|now destruct (write_catch W config method e h1)].
  simpl. destruct (getFunction W contract method) as [[]|e]; simpl.
  - destruct (staticCall W (tick h1) contract method args) as [v|e]; simpl.
    + destruct (send W _ contract method args) as [tx|e]; simpl; [reflexivity|].
      now destruct (write_catch W config method e _).
    + rewrite preflight_catch_rethrows.
      now destruct (write_catch W config method e _).
  - rewrite preflight_catch_rethrows.
    now destruct (write_catch W config method e h1).
Qed.

Lemma console_events_through_wallet (store : Web3Store) (evs : list Event) :
  forallb (fun ev => negb (is_network_call ev)) evs = true ->
  forallb (through_wallet store) evs = true.
Proof.
  induction evs as [|ev evs IH]; [reflexivity|]. simpl.
  intros [Hev Hevs]%andb_prop. rewrite IH by exact Hevs.
  now destruct ev.
Qed.

Lemma console_events_no_network_call (evs : list Event) :
  forallb (fun ev => negb (is_network_call ev)) evs = true ->
  network_calls evs = [].
Proof.
  induction evs as [|ev evs IH]; [reflexivity|]. simpl.
  intros [Hev Hevs]%andb_prop. unfold network_calls in *. simpl.
  destruct (is_network_call ev); [discriminate|]. now apply IH.
Qed.

Lemma network_calls_app (evs1 evs2 : list Event) :
  network_calls (evs1 ++ evs2) = network_calls evs1 ++ network_calls evs2.
Proof. unfold network_calls. apply List.filter_app. Qed.

(** A write that fails at the guard of [getWriteContract] rejects with the
    error of the guard, having only printed it. *)
Lemma write_guard_failure (store : Web3Store) (method : string)
  (args : list JsValue) (msg : string) (h : Heap) :
  getWriteContract W config store (set_submitting true h)
  = (Throw (Error msg), set_submitting true h) ->
  write W config store method args h
  = (Throw (Error msg),
     set_submitting false
       (record_event (write_error_report method (Error msg))
          (set_submitting true h))).
Proof. intros Hguard. now rewrite write_unfold, Hguard. Qed.

(** The events of a write: appended to those already there, none of them a
    request to the public pool, every request going through the wallet. *)
Lemma write_events (store : Web3Store) (method : string) (args : list JsValue)
  (h : Heap) :
  exists evs,
    events (snd (write W config store method args h)) = events h ++ evs /\
    forallb (through_wallet store) evs = true /\
    providerCache (snd (write W config store method args h)) = providerCache h.
Proof.
  rewrite write_unfold.
  destruct (getWriteContract W config store (set_submitting true h))
    as [[contract|e] h1] eqn:Hget.
  - apply getWriteContract_inv in Hget
      as (p & s & Hprov & _ & _ & _ & -> & ->).
    cbv zeta.
    assert (Hwallet : bool_decide (wallet_provider store = Some p) = true)
      by now apply bool_decide_eq_true.
    repeat match goal with
           | |- context [match ?x with Normal _ => _ | Throw _ => _ end] =>
               destruct x
           | |- context [write_catch W config ?m ?e ?h0] =>
               destruct (write_catch_rethrows m e h0) as (evs & -> & Hevs);
               apply (console_events_through_wallet store) in Hevs
           end;
      simpl; rewrite ?events_record_events, ?providerCache_record_events; simpl;
      rewrite <- ?app_assoc; eexists; (split; [reflexivity|]);
      (split; [|reflexivity]); simpl; rewrite ?forallb_app; simpl;
      rewrite ?Hwallet, ?Hevs; reflexivity.
  - destruct (write_catch_rethrows method e h1) as (evs & -> & Hevs).
    apply (console_events_through_wallet store) in Hevs.
    simpl. rewrite events_record_events, providerCache_record_events.
    apply getWriteContract_throw_inv in Hget as [->|(p & Hprov & ->)]; simpl.
    + eauto.
    + rewrite <- app_assoc. eexists. split; [reflexivity|]. split; [|reflexivity].
      simpl. rewrite Hevs. now rewrite bool_decide_true.
Qed.

Lemma console_events_no_submission (evs : list Event) :
  forallb (fun ev => negb (is_network_call ev)) evs = true ->
  List.filter is_submission evs = [].
Proof.
  induction evs as [|ev evs IH]; [reflexivity|]. simpl.
  intros [Hev Hevs]%andb_prop. rewrite (IH Hevs). now destruct ev.
Qed.

Lemma not_connected_no_chain (store : Web3Store) :
  web3Store.isConnected store = false ->
  same_chain (web3Store.chainId store) (chainId config) = false.
Proof.
  unfold web3Store.isConnected, web3Store.chainId.
  now destruct (web3Store.connectedWallet store).
Qed.

Lemma not_connected_message_differs :
  Error "Wallet not connected" <> Error (wrong_network_message (chainId config)).
Proof. unfold wrong_network_message. simpl. discriminate. Qed.

(** A failed preflight ends the write with the error of the simulation
    itself, whatever payload it carries and whatever the decoder makes of
    it; nothing is submitted. *)
Lemma write_preflight_failure_surfaces_raw_error
  (store : Web3Store) (method : string) (args : list JsValue) (h h1 : Heap)
  (contract : Contract) (e : JsError) :
  getWriteContract W config store (set_submitting true h) = (Normal contract, h1) ->
  getFunction W contract method = Normal tt ->
  staticCall W (tick h1) contract method args = Throw e ->
  fst (write W config store method args h) = Throw e /\
  List.filter is_submission (events (snd (write W config store method args h)))
  = List.filter is_submission (events h).
Proof.
  intros Hget Hfn Hsim. rewrite write_unfold, Hget. cbv zeta. rewrite Hfn, Hsim.
  destruct (write_catch_rethrows method e
              (advance (record_event (EvStaticCall contract method args) h1)))
    as (evs & -> & Hevs).
  split; [reflexivity|]. simpl. rewrite events_record_events. simpl.
  apply getWriteContract_inv in Hget as (p & s & _ & _ & _ & _ & _ & ->).
  simpl. rewrite !List.filter_app. simpl.
  rewrite (console_events_no_submission _ Hevs). now rewrite !app_nil_r.
Qed.

(** C5: a write whose signer is not connected, or is connected on another
    chain than the contract's, fails with "Wallet not connected" or "Wrong
    network" respectively without a single network call; and whatever a
    write does, it never touches the public pool: its requests go through
    the channel of the connected wallet and its contract runs on a signer
    of that channel. *)
Theorem write_requires_signer_on_chain
  (store : Web3Store) (method : string) (args : list JsValue) (h : Heap) :
  let r := write W config store method args h in
  (web3Store.isConnected store = false \/ wallet_provider store = None ->
   fst r = Throw (Error "Wallet not connected") /\
   network_calls (events (snd r)) = network_calls (events h)) /\
  (web3Store.isConnected store = true ->
   is_Some (wallet_provider store) ->
   same_chain (web3Store.chainId store) (chainId config) = false ->
   fst r = Throw (Error (wrong_network_message (chainId config))) /\
   network_calls (events (snd r)) = network_calls (events h)) /\
  (exists evs, events (snd r) = events h ++ evs /\
               forallb (through_wallet store) evs = true) /\
  providerCache (snd r) = providerCache h /\
  (forall contract h',
      getWriteContract W config store h = (Normal contract, h') ->
      exists p s, wallet_provider store = Some p /\
                  runner contract = RunnerSigner p s).
Proof.
  intros r. subst r. split; [|split; [|split; [|split]]].
  - intros Hnot.
    rewrite (write_guard_failure store method args _ h
               (getWriteContract_not_connected store _ Hnot)).
    split; [reflexivity|].
    simpl. rewrite network_calls_app. simpl. now rewrite app_nil_r.
  - intros Hconn Hprov Hchain.
    rewrite (write_guard_failure store method args _ h
               (getWriteContract_wrong_network store _ Hconn Hprov Hchain)).
    split; [reflexivity|].
    simpl. rewrite network_calls_app. simpl. now rewrite app_nil_r.
  - destruct (write_events store method args h) as (evs & Hevs & Hwallet & _).
    eauto.
  - now destruct (write_events store method args h) as (evs & _ & _ & Hcache).
  - intros contract h' Hget.
    apply getWriteContract_inv in Hget as (p & s & Hprov & _ & _ & _ & -> & _).
    eauto.
Qed.

(** C9: when no wallet is connected, which leaves the signer without an
    active chain and hence off the requested one, [getWriteContract] and
    [write] fail with "Wallet not connected" and not with "Wrong network":
    the connection is checked first. *)
Theorem not_connected_precedes_wrong_network
  (store : Web3Store) (method : string) (args : list JsValue) (h : Heap) :
  web3Store.isConnected store = false ->
  same_chain (web3Store.chainId store) (chainId config) = false /\
  getWriteContract W config store h = (Throw (Error "Wallet not connected"), h) /\
  fst (write W config store method args h) = Throw (Error "Wallet not connected") /\
  fst (write W config store method args h)
  <> Throw (Error (wrong_network_message (chainId config))).
Proof.
  intros Hnot.
  assert (Hwrite : fst (write W config store method args h)
                   = Throw (Error "Wallet not connected")).
  { now rewrite (write_guard_failure store method args _ h
                   (getWriteContract_not_connected store _ (or_introl Hnot))). }
  split; [now apply not_connected_no_chain|].
  split; [apply getWriteContract_not_connected; now left|].
  split; [exact Hwrite|].
  rewrite Hwrite. intros Heq. apply not_connected_message_differs. congruence.
Qed.

End UseContractFacts.

Lemma write_requires_signer_on_chain_witness :
  fst (write reverting_world token_on_bsc disconnected_store "transfer" [] initial_heap)
  = Throw (Error "Wallet not connected") /\
  fst (write reverting_world token_on_bsc (wallet_on 1) "transfer" [] initial_heap)
  = Throw (Error "Wrong network. Please switch to chain 56") /\
  network_calls
    (events (snd (write reverting_world token_on_bsc (wallet_on 1) "transfer" []
                    initial_heap)))
  = [].
Proof.
  pose proof (write_requires_signer_on_chain reverting_world token_on_bsc
                disconnected_store "transfer" [] initial_heap) as Hnone.
  pose proof (write_requires_signer_on_chain reverting_world token_on_bsc
                (wallet_on 1) "transfer" [] initial_heap) as Hother.
  cbv zeta in Hnone, Hother.
  split; [|split].
  - apply (proj1 Hnone). left. reflexivity.
  - apply (proj1 (proj2 Hother)); [reflexivity|now eexists|reflexivity].
  - apply (proj1 (proj2 Hother)); [reflexivity|now eexists|reflexivity].
Defined.

Lemma not_connected_precedes_wrong_network_witness :
  web3Store.isConnected disconnected_store = false /\
  fst (write reverting_world token_on_bsc disconnected_store "transfer" [] initial_heap)
  = Throw (Error "Wallet not connected").
Proof.
  split; [reflexivity|].
  apply (not_connected_precedes_wrong_network reverting_world token_on_bsc
           disconnected_store "transfer" [] initial_heap).
  reflexivity.
Defined.

(** C2, at the input where the code departs from it: the preflight reverts
    with the payload of [Error("Insufficient balance")], the payload is found
    and decodes to that message, and still the write rejects with the error of
    the simulation, whose message is another; nothing is submitted. *)
Theorem write_insufficient_balance_surfaces_raw_error :
  let r := write reverting_world token_on_bsc (wallet_on 56) "transfer" []
             initial_heap in
  extractRevertData insufficient_balance_revert = Some insufficient_balance_payload /\
  (exists decoded,
      parseError reverting_world (abi token_on_bsc) insufficient_balance_payload
      = Normal decoded /\
      revert_message decoded = "Insufficient balance") /\
  fst r = Throw insufficient_balance_revert /\
  message insufficient_balance_revert <> "Insufficient balance" /\
  List.filter is_submission (events (snd r)) = [].
Proof.
  cbv zeta. split; [reflexivity|]. split.
  - eexists. split; reflexivity.
  - split; [reflexivity|]. split; [discriminate|reflexivity].
Qed.

(** A preflight that passes is followed by the submission, on the same
    contract, and the write resolves to the accepted transaction. *)
Example write_submits_after_preflight :
  let W := scripted_world (fun _ _ => true) (Normal JsUndefined)
             (Normal accepted_transaction) example_decoder in
  let r := write W token_on_bsc (wallet_on 56) "transfer" [] initial_heap in
  fst r = Normal accepted_transaction /\
  length (List.filter is_submission (events (snd r))) = 1%nat /\
  submitting (snd r) = false.
Proof. cbv zeta. repeat split. Qed.

(** Reading from a chain without endpoints, no wallet being connected, fails
    with the error of the pool and clears the indicator. *)
Example read_unconfigured_chain :
  let config := {| address := "0x00000000000000000000000000000000000000c0";
                   abi := []; chainId := 5 |} in
  let r := read all_endpoints_down config disconnected_store "balanceOf" []
             initial_heap in
  fst r = Throw (Error "No RPC endpoints configured for chain ID 5") /\
  loading (snd r) = false.
Proof. cbv zeta. split; reflexivity. Qed.

(** * Further properties *)

(** ** The provider cache across calls *)

Section RpcProviderCalls.
Variable W : World.

(** The four ways a call of [getRpcProvider] ends. *)
Lemma getRpcProvider_cases (chain : Z) (h : Heap) :
  (exists p n,
      providerCache h !! chain = Some p /\
      getBlockNumber W (tick h) p = Normal n /\
      getRpcProvider W chain h = (Normal p, probed p h)) \/
  (exists h0,
      fall_through W chain h = Some h0 /\
      getRpcEndpoints chain = [] /\
      getRpcProvider W chain h = (Throw (Error (no_endpoints_message chain)), h0)) \/
  (exists h0 h1,
      fall_through W chain h = Some h0 /\
      getRpcEndpoints chain <> [] /\
      after_failures W (getRpcEndpoints chain) h0 = Some h1 /\
      getRpcProvider W chain h = (Throw (Error (all_failed_message chain)), h1)) \/
  (exists h0 h1 (pre : list string) (endpoint : string) (post : list string),
      fall_through W chain h = Some h0 /\
      getRpcEndpoints chain = pre ++ endpoint :: post /\
      after_failures W pre h0 = Some h1 /\
      refusal W h1 endpoint = None /\
      getRpcProvider W chain h
      = (Normal {| provider_ref := next_ref h1; provider_url := endpoint |},
         set_providerCache
           (insert chain {| provider_ref := next_ref h1; provider_url := endpoint |})
           (probed {| provider_ref := next_ref h1; provider_url := endpoint |}
              (allocate h1)))).
Proof.
  destruct (fall_through W chain h) as [h0|] eqn:Hfall.
  - right. rewrite (getRpcProvider_fall_through W chain h h0 Hfall).
    unfold getRpcEndpoints.
    destruct (RPC_ENDPOINTS !! chain) as [endpoints|] eqn:Hpool;
      [|left; exists h0; auto].
    destruct (endpoints_fail_or_first_live W endpoints h0)
      as [[h1 Hall]|(pre & live & post & h1 & Heq & Hpre & Hlive)].
    + destruct endpoints as [|e rest]; [left; exists h0; auto|].
      right. left. exists h0, h1. split; [reflexivity|].
      split; [discriminate|]. split; [exact Hall|].
      now apply try_endpoints_all_fail.
    + right. right. exists h0, h1, pre, live, post.
      split; [reflexivity|]. split; [exact Heq|]. split; [exact Hpre|].
      split; [exact Hlive|].
      transitivity (try_endpoints W chain endpoints h0);
        [now destruct endpoints; [destruct pre|]|].
      rewrite Heq. now apply try_endpoints_first_live.
  - left. unfold fall_through in Hfall.
    destruct (providerCache h !! chain) as [p|] eqn:Hcached; [|discriminate].
    destruct (getBlockNumber W (tick h) p) as [n|] eqn:Hlive; [|discriminate].
    exists p, n. split; [reflexivity|]. split; [exact Hlive|].
    now apply getRpcProvider_cached_live with n.
Qed.

Lemma fall_through_cache_other (chain other : Z) (h h0 : Heap) :
  fall_through W chain h = Some h0 ->
  other <> chain ->
  providerCache h0 !! other = providerCache h !! other.
Proof.
  intros Hfall Hne. rewrite (fall_through_cache W _ _ _ Hfall).
  now apply lookup_delete_ne.
Qed.




(** X3: a call for one chain leaves the handles cached for the other chains
    where they are. *)
Theorem getRpcProvider_keeps_other_chains (chain other : Z) (h : Heap) :
  other <> chain ->
  providerCache (snd (getRpcProvider W chain h)) !! other
  = providerCache h !! other.
Proof.
  intros Hne.
  destruct (getRpcProvider_cases chain h)
    as [(q & n & Hcached & _ & ->)
       |[(h0 & Hfall & _ & ->)
        |[(h0 & h1 & Hfall & _ & Hall & ->)
         |(h0 & h1 & pre & live & post & Hfall & _ & Hpre & _ & ->)]]]; simpl.
  - reflexivity.
  - now apply fall_through_cache_other with chain.
  - rewrite (after_failures_cache W _ _ _ Hall).
    now apply fall_through_cache_other with chain.
  - rewrite lookup_insert_ne by congruence.
    rewrite (after_failures_cache W _ _ _ Hpre).
    now apply fall_through_cache_other with chain.
Qed.


(** X5: after [clearProviderCache] a call does not probe the handle that was
    cached, alive or not: it starts over from the configured endpoints. *)
Theorem clearProviderCache_forgets_every_handle (chain : Z) (h : Heap) :
  let cleared := snd (clearProviderCache h) in
  (forall other, providerCache cleared !! other = None) /\
  events cleared = events h /\
  getRpcProvider W chain cleared
  = match RPC_ENDPOINTS !! chain with
    | None | Some [] => (Throw (Error (no_endpoints_message chain)), cleared)
    | Some endpoints => try_endpoints W chain endpoints cleared
    end.
Proof.
  intros cleared. split; [|split].
  - intros other. apply lookup_empty.
  - reflexivity.
  - apply getRpcProvider_fall_through. unfold fall_through.
    subst cleared. simpl. now rewrite lookup_empty.
Qed.

End RpcProviderCalls.

Section RpcProviderEffects.
Variable W : World.

Lemma refusal_events (h h' : Heap) (endpoint : string) (e : JsError) :
  refusal W h endpoint = Some (e, h') ->
  exists evs,
    events h' = events h ++ evs /\
    forallb is_pool_event evs = true /\
    (length (network_calls evs) <= 1)%nat.
Proof.
  unfold refusal.
  destruct (JsonRpcProvider_new W endpoint).
  - destruct (getBlockNumber W _ _); [discriminate|intros [= _ <-]].
    eexists [_]. simpl. split; [reflexivity|]. split; [reflexivity|].
    unfold network_calls. simpl. lia.
  - intros [= _ <-]. exists []. simpl. rewrite app_nil_r.
    split; [reflexivity|]. split; [reflexivity|]. lia.
Qed.

Lemma after_failures_events (endpoints : list string) (h h1 : Heap) :
  after_failures W endpoints h = Some h1 ->
  exists evs,
    events h1 = events h ++ evs /\
    forallb is_pool_event evs = true /\
    (length (network_calls evs) <= length endpoints)%nat.
Proof.
  revert h. induction endpoints as [|endpoint rest IH]; intros h; simpl.
  - intros [= ->]. exists []. rewrite app_nil_r. auto.
  - destruct (refusal W h endpoint) as [[e h']|] eqn:Href; [|discriminate].
    intros Hrest. apply IH in Hrest as (evs2 & Hevs2 & Hpool2 & Hlen2).
    apply refusal_events in Href as (evs1 & Hevs1 & Hpool1 & Hlen1).
    exists (evs1 ++ EvConsoleWarn (endpoint_failed_message endpoint) e :: evs2).
    split; [|split].
    + rewrite Hevs2. simpl. rewrite Hevs1. now rewrite <- !app_assoc.
    + rewrite forallb_app, Hpool1. simpl. exact Hpool2.
    + rewrite network_calls_app, length_app. simpl.
      change (List.filter is_network_call evs2) with (network_calls evs2). lia.
Qed.

Lemma fall_through_events (chain : Z) (h h0 : Heap) :
  fall_through W chain h = Some h0 ->
  exists evs,
    events h0 = events h ++ evs /\
    forallb is_pool_event evs = true /\
    (length (network_calls evs) <= 1)%nat.
Proof.
  unfold fall_through.
  destruct (providerCache h !! chain) as [p|].
  - destruct (getBlockNumber W (tick h) p); [discriminate|intros [= <-]].
    eexists [_]. simpl. split; [reflexivity|]. split; [reflexivity|].
    unfold network_calls. simpl. lia.
  - intros [= <-]. exists []. rewrite app_nil_r. simpl. auto.
Qed.

(** A successful call after the failures of [pre] and a first probe. *)
Lemma pool_events_compose (evs0 evs1 : list Event) (p : JsonRpcProvider)
  (k : nat) :
  forallb is_pool_event evs0 = true ->
  forallb is_pool_event evs1 = true ->
  (length (network_calls evs0) <= 1)%nat ->
  (length (network_calls evs1) <= k)%nat ->
  forallb is_pool_event (evs0 ++ evs1 ++ [EvGetBlockNumber p]) = true /\
  (length (network_calls (evs0 ++ evs1 ++ [EvGetBlockNumber p])) <= 1 + (k + 1))%nat.
Proof.
  intros H0 H1 L0 L1. split.
  - now rewrite !forallb_app, H0, H1.
  - rewrite !network_calls_app, !length_app. simpl. lia.
Qed.

(** X6: what a call of [getRpcProvider] does outside the page is probing:
    every event it adds is a probe or a warning, and it sends at most one
    probe to the cached handle and one to each configured endpoint. *)
Theorem getRpcProvider_probes_are_bounded (chain : Z) (h : Heap) :
  exists evs,
    events (snd (getRpcProvider W chain h)) = events h ++ evs /\
    forallb is_pool_event evs = true /\
    (length (network_calls evs) <= 1 + length (getRpcEndpoints chain))%nat.
Proof.
  destruct (getRpcProvider_cases W chain h)
    as [(q & n & Hcached & _ & ->)
       |[(h0 & Hfall & _ & ->)
        |[(h0 & h1 & Hfall & _ & Hall & ->)
         |(h0 & h1 & pre & live & post & Hfall & Heq & Hpre & _ & ->)]]]; simpl.
  - eexists [_]. split; [reflexivity|]. split; [reflexivity|].
    unfold network_calls. simpl. lia.
  - apply fall_through_events in Hfall as (evs & -> & Hpool & Hlen).
    exists evs. split; [reflexivity|]. split; [exact Hpool|]. lia.
  - apply fall_through_events in Hfall as (evs0 & Hevs0 & Hpool0 & Hlen0).
    apply after_failures_events in Hall as (evs1 & -> & Hpool1 & Hlen1).
    exists (evs0 ++ evs1). rewrite Hevs0, <- app_assoc.
    split; [reflexivity|]. split; [now rewrite forallb_app, Hpool0, Hpool1|].
    rewrite network_calls_app, length_app. lia.
  - apply fall_through_events in Hfall as (evs0 & Hevs0 & Hpool0 & Hlen0).
    apply after_failures_events in Hpre as (evs1 & -> & Hpool1 & Hlen1).
    exists (evs0 ++ evs1 ++ [EvGetBlockNumber
                               {| provider_ref := next_ref h1; provider_url := live |}]).
    rewrite Hevs0, <- !app_assoc. split; [reflexivity|].
    destruct (pool_events_compose evs0 evs1
                {| provider_ref := next_ref h1; provider_url := live |}
                (length pre) Hpool0 Hpool1 Hlen0 Hlen1) as [Hpool Hlen].
    split; [exact Hpool|]. rewrite Heq, length_app. simpl. lia.
Qed.

Lemma after_failures_same_instance (endpoints : list string) (h h1 : Heap) :
  after_failures W endpoints h = Some h1 -> same_instance h h1.
Proof.
  revert h. induction endpoints as [|endpoint rest IH]; intros h; simpl.
  - intros [= ->]. repeat split.
  - destruct (refusal W h endpoint) as [[e h']|] eqn:Href; [|discriminate].
    intros Hrest. apply IH in Hrest as (Hl & Hlo & Hs). simpl in *.
    unfold refusal in Href.
    destruct (JsonRpcProvider_new W endpoint);
      [destruct (getBlockNumber W _ _); [discriminate|]|];
      injection Href as _ <-; now repeat split.
Qed.

Lemma fall_through_same_instance (chain : Z) (h h0 : Heap) :
  fall_through W chain h = Some h0 -> same_instance h h0.
Proof.
  unfold fall_through.
  destruct (providerCache h !! chain) as [p|].
  - destruct (getBlockNumber W (tick h) p); [discriminate|intros [= <-]].
    repeat split.
  - intros [= <-]. repeat split.
Qed.

Lemma same_instance_trans (h1 h2 h3 : Heap) :
  same_instance h1 h2 -> same_instance h2 h3 -> same_instance h1 h3.
Proof. unfold same_instance. intros (-> & -> & ->) (-> & -> & ->). auto. Qed.

(** The pool knows nothing of the [useContract] instance. *)
Lemma getRpcProvider_same_instance (chain : Z) (h : Heap) :
  same_instance h (snd (getRpcProvider W chain h)).
Proof.
  destruct (getRpcProvider_cases W chain h)
    as [(q & n & Hcached & _ & ->)
       |[(h0 & Hfall & _ & ->)
        |[(h0 & h1 & Hfall & _ & Hall & ->)
         |(h0 & h1 & pre & live & post & Hfall & Heq & Hpre & _ & ->)]]]; simpl.
  - repeat split.
  - now apply fall_through_same_instance with chain.
  - eapply same_instance_trans; [eapply fall_through_same_instance, Hfall|].
    eapply after_failures_same_instance, Hall.
  - eapply same_instance_trans; [eapply fall_through_same_instance, Hfall|].
    apply after_failures_same_instance in Hpre as (Hl & Hlo & Hs).
    now repeat split.
Qed.

End RpcProviderEffects.

(** ** Reads *)

Section ReadFacts.
Variable W : World.
Variable config : ContractConfig.

Lemma getReadContract_from_pool (store : Web3Store) (h : Heap) :
  wallet_serves config store = false ->
  getReadContract W config store h = contract_from_pool W config h.
Proof.
  unfold wallet_serves, getReadContract, contract_from_pool. intros ->.
  unfold_M. simpl. now destruct (getRpcProvider W (chainId config) h) as [[p|e] h'].
Qed.

Lemma getReadContract_on_wallet (store : Web3Store) (h : Heap) (p : Eip1193Provider) :
  wallet_serves config store = true ->
  wallet_provider store = Some p ->
  BrowserProvider_new W p = Normal tt ->
  getReadContract W config store h
  = (Normal (contract_on config (RunnerBrowser p)), h).
Proof.
  unfold wallet_serves, getReadContract, new_BrowserProvider. intros -> -> Hnew.
  unfold_M. now rewrite Hnew.
Qed.

Lemma getReadContract_wallet_broken
  (store : Web3Store) (h : Heap) (p : Eip1193Provider) (e : JsError) :
  wallet_serves config store = true ->
  wallet_provider store = Some p ->
  BrowserProvider_new W p = Throw e ->
  getReadContract W config store h
  = contract_from_pool W config
      (record_event
         (EvConsoleWarn
            "[useContract] Failed to use wallet provider, falling back to RPC" e)
         h).
Proof.
  unfold wallet_serves, getReadContract, new_BrowserProvider, contract_from_pool.
  intros -> -> Hnew. unfold_M. rewrite Hnew. simpl.
  now destruct (getRpcProvider W (chainId config) _) as [[q|e'] h'].
Qed.

(** X7: with a wallet connected on the chain of the contract, whose channel
    ethers accepts, the read contract runs on that channel; the public pool
    is neither probed nor changed and nothing leaves the page. *)
Theorem getReadContract_prefers_the_wallet
  (store : Web3Store) (h : Heap) (p : Eip1193Provider) :
  web3Store.isConnected store = true ->
  same_chain (web3Store.chainId store) (chainId config) = true ->
  wallet_provider store = Some p ->
  BrowserProvider_new W p = Normal tt ->
  getReadContract W config store h
  = (Normal (contract_on config (RunnerBrowser p)), h).
Proof.
  intros Hconn Hchain Hprov Hnew.
  apply (getReadContract_on_wallet store h p); [|exact Hprov|exact Hnew].
  unfold wallet_serves. rewrite Hconn, Hchain, Hprov.
  now rewrite bool_decide_true by eauto.
Qed.

(** X8: in every other case the read contract is built on the provider of
    the public pool and fails as the pool fails: at once when no wallet is
    connected, when it is on another chain or exposes no channel, and after
    a warning when ethers refuses the channel of the wallet. *)
Theorem getReadContract_falls_back_to_the_pool (store : Web3Store) (h : Heap) :
  (web3Store.isConnected store = false \/
   same_chain (web3Store.chainId store) (chainId config) = false \/
   wallet_provider store = None ->
   getReadContract W config store h = contract_from_pool W config h) /\
  (forall p e,
      web3Store.isConnected store = true ->
      same_chain (web3Store.chainId store) (chainId config) = true ->
      wallet_provider store = Some p ->
      BrowserProvider_new W p = Throw e ->
      getReadContract W config store h
      = contract_from_pool W config
          (record_event
             (EvConsoleWarn
                "[useContract] Failed to use wallet provider, falling back to RPC" e)
             h)).
Proof.
  split.
  - intros Hcase. apply getReadContract_from_pool. unfold wallet_serves.
    destruct Hcase as [->|[->| ->]]; [reflexivity|now rewrite andb_false_r|].
    now rewrite andb_false_r.
  - intros p e Hconn Hchain Hprov Hnew.
    apply (getReadContract_wallet_broken store h p e); [|exact Hprov|exact Hnew].
    unfold wallet_serves. rewrite Hconn, Hchain, Hprov.
    now rewrite bool_decide_true by eauto.
Qed.

Lemma contract_from_pool_same_instance (h : Heap) :
  same_instance h (snd (contract_from_pool W config h)).
Proof.
  unfold contract_from_pool.
  pose proof (getRpcProvider_same_instance W (chainId config) h) as Hsame.
  now destruct (getRpcProvider W (chainId config) h) as [[p|e] h'].
Qed.

Lemma contract_from_pool_cache_configured (h : Heap) :
  cache_configured h -> cache_configured (snd (contract_from_pool W config h)).
Proof.
  intros Hinv. unfold contract_from_pool.
  pose proof (getRpcProvider_preserves_cache_configured W (chainId config) h Hinv)
    as Hafter.
  now destruct (getRpcProvider W (chainId config) h) as [[p|e] h'].
Qed.

(** What [getReadContract] leaves behind, case by case. *)
Lemma getReadContract_heap (store : Web3Store) (h : Heap) :
  snd (getReadContract W config store h) = h \/
  snd (getReadContract W config store h) = snd (contract_from_pool W config h) \/
  exists e,
    snd (getReadContract W config store h)
    = snd (contract_from_pool W config
             (record_event
                (EvConsoleWarn
                   "[useContract] Failed to use wallet provider, falling back to RPC" e)
                h)).
Proof.
  destruct (wallet_serves config store) eqn:Hserves.
  - assert (Hprov : exists p, wallet_provider store = Some p).
    { unfold wallet_serves in Hserves.
      apply andb_prop in Hserves as [_ Hsome%bool_decide_eq_true].
      destruct Hsome as [p Hp]. eauto. }
    destruct Hprov as [p Hprov].
    destruct (BrowserProvider_new W p) as [[]|e] eqn:Hnew.
    + left. now rewrite (getReadContract_on_wallet store h p).
    + right. right. exists e.
      now rewrite (getReadContract_wallet_broken store h p e).
  - right. left. now rewrite getReadContract_from_pool.
Qed.

Lemma getReadContract_same_instance (store : Web3Store) (h : Heap) :
  same_instance h (snd (getReadContract W config store h)).
Proof.
  destruct (getReadContract_heap store h) as [->|[->|[e ->]]].
  - repeat split.
  - apply contract_from_pool_same_instance.
  - eapply same_instance_trans; [|apply contract_from_pool_same_instance].
    repeat split.
Qed.

Lemma read_fetcher_same_instance
  (store : Web3Store) (method : string) (args : list JsValue) (h : Heap) :
  same_instance h (snd (read_fetcher W config store method args h)).
Proof.
  unfold read_fetcher. unfold_M.
  pose proof (getReadContract_same_instance store h) as Hsame.
  destruct (getReadContract W config store h) as [[c|e] h']; simpl in *;
    [|exact Hsame].
  destruct Hsame as (Hl & Hlo & Hs). now repeat split.
Qed.

(** [fetchData] around a fetcher that starts no read of its own hands its
    outcome through and clears the indicator. *)
Lemma fetchData_alone {T} (fetcher : M T) (h : Heap) :
  let started :=
    set_loading true (set_latestFetchId (increment (latestFetchId h)) h) in
  latestFetchId (snd (fetcher started)) = latestFetchId started ->
  fetchData fetcher h
  = (fst (fetcher started), set_loading false (snd (fetcher started))).
Proof.
  intros started Hsame. unfold fetchData.
  unfold mbind at 1. unfold M_bind at 1. rewrite fetchData_begin_eq.
  fold started. unfold mbind, M_bind, outcome_of.
  destruct (fetcher started) as [c h']. simpl in *.
  now apply fetchData_resume_current.
Qed.

Lemma read_unfold
  (store : Web3Store) (method : string) (args : list JsValue) (h : Heap) :
  let started :=
    set_loading true (set_latestFetchId (increment (latestFetchId h)) h) in
  read W config store method args h
  = (fst (read_fetcher W config store method args started),
     set_loading false (snd (read_fetcher W config store method args started))).
Proof.
  intros started.
  apply (fetchData_alone (read_fetcher W config store method args) h).
  apply read_fetcher_same_instance.
Qed.

(** X9: a read that no other read overlaps settles as the call it wraps
    settles, value or error, and ends with the loading indicator cleared and
    one more token issued. *)
Theorem read_alone_is_transparent
  (store : Web3Store) (method : string) (args : list JsValue) (h : Heap) :
  let started :=
    set_loading true (set_latestFetchId (increment (latestFetchId h)) h) in
  read W config store method args h
  = (fst (read_fetcher W config store method args started),
     set_loading false (snd (read_fetcher W config store method args started))).
Proof.
  intros started.
  change (read W config store method args)
    with (fetchData (read_fetcher W config store method args)).
  rewrite fetchData_alone; [reflexivity|].
  destruct (read_fetcher_same_instance store method args
              (set_loading true
                 (set_latestFetchId (increment (latestFetchId h)) h)))
    as (Hlatest & _ & _).
  exact Hlatest.
Qed.

Lemma cache_configured_ext (h h' : Heap) :
  providerCache h' = providerCache h -> cache_configured h -> cache_configured h'.
Proof. unfold cache_configured. now intros ->. Qed.

Lemma read_cache_configured
  (store : Web3Store) (method : string) (args : list JsValue) (h : Heap) :
  cache_configured h ->
  cache_configured (snd (read W config store method args h)).
Proof.
  intros Hinv. rewrite read_unfold. cbv zeta. simpl snd.
  set (started := set_loading true _).
  assert (Hstarted : cache_configured started)
    by (apply (cache_configured_ext h); [reflexivity|exact Hinv]).
  assert (Hget : cache_configured (snd (getReadContract W config store started))).
  { destruct (getReadContract_heap store started) as [->|[->|[e ->]]].
    - exact Hstarted.
    - now apply contract_from_pool_cache_configured.
    - apply contract_from_pool_cache_configured.
      apply (cache_configured_ext started); [reflexivity|exact Hstarted]. }
  unfold read_fetcher. unfold_M.
  destruct (getReadContract W config store started) as [[c|e] h']; simpl in *;
    eapply cache_configured_ext; try exact Hget; reflexivity.
Qed.

End ReadFacts.

(** ** Writes *)

Section WriteFacts.
Context `{Runtime}.
Variable W : World.
Variable config : ContractConfig.

Lemma getWriteContract_ready
  (store : Web3Store) (h : Heap) (p : Eip1193Provider) (s : Signer) :
  web3Store.isConnected store = true ->
  same_chain (web3Store.chainId store) (chainId config) = true ->
  wallet_provider store = Some p ->
  BrowserProvider_new W p = Normal tt ->
  getSigner W (tick h) p = Normal s ->
  getWriteContract W config store h
  = (Normal (contract_on config (RunnerSigner p s)),
     advance (record_event (EvGetSigner p) h)).
Proof.
  unfold getWriteContract, new_BrowserProvider. intros -> -> -> Hnew Hsigner.
  rewrite bool_decide_true by eauto. simpl. unfold_M.
  now rewrite Hnew, Hsigner.
Qed.

Lemma write_catch_same_instance (method : string) (e : JsError) (h : Heap) :
  same_instance h (snd (write_catch W config method e h)).
Proof.
  destruct (write_catch_rethrows W config method e h) as (evs & -> & _).
  simpl. clear. revert h.
  induction evs as [|ev evs IH]; intros h; [repeat split|].
  unfold record_events in *. simpl.
  eapply same_instance_trans; [|apply IH]. repeat split.
Qed.

Lemma getWriteContract_same_instance (store : Web3Store) (h : Heap) :
  same_instance h (snd (getWriteContract W config store h)).
Proof.
  destruct (getWriteContract W config store h) as [[c|e] h'] eqn:Hget; simpl.
  - apply getWriteContract_inv in Hget as (p & s & _ & _ & _ & _ & _ & ->).
    repeat split.
  - apply getWriteContract_throw_inv in Hget as [->|(p & _ & ->)]; repeat split.
Qed.


(** X11: when the submission itself fails, after a preflight that passed,
    the write rejects with the error of the submission as it came, having
    attempted the submission once and printed the error. *)
Theorem write_submission_failure_is_rethrown
  (store : Web3Store) (method : string) (args : list JsValue) (h : Heap)
  (p : Eip1193Provider) (s : Signer) (v : JsValue) (e : JsError) :
  let c := contract_on config (RunnerSigner p s) in
  web3Store.isConnected store = true ->
  same_chain (web3Store.chainId store) (chainId config) = true ->
  wallet_provider store = Some p ->
  BrowserProvider_new W p = Normal tt ->
  getSigner W (tick h) p = Normal s ->
  getFunction W c method = Normal tt ->
  staticCall W (S (tick h)) c method args = Normal v ->
  send W (S (S (tick h))) c method args = Throw e ->
  fst (write W config store method args h) = Throw e /\
  network_calls (events_since h (snd (write W config store method args h)))
  = [EvGetSigner p; EvStaticCall c method args; EvSend c method args] /\
  submitting (snd (write W config store method args h)) = false.
Proof.
  intros c Hconn Hchain Hprov Hnew Hsigner Hfn Hsim Hsend.
  rewrite write_unfold.
  rewrite (getWriteContract_ready store (set_submitting true h) p s
             Hconn Hchain Hprov Hnew Hsigner).
  fold c. cbv zeta. simpl tick. rewrite Hfn, Hsim, Hsend.
  match goal with
  | |- context [write_catch W config method e ?h0] =>
      destruct (write_catch_rethrows W config method e h0) as (evs & -> & Hevs)
  end.
  split; [reflexivity|]. split; [|reflexivity].
  unfold events_since. simpl. rewrite events_record_events. simpl.
  rewrite <- !app_assoc. rewrite drop_app_length.
  unfold network_calls. simpl.
  change (List.filter is_network_call evs) with (network_calls evs).
  now rewrite (console_events_no_network_call _ Hevs).
Qed.

(** X12: a write submits at most once, and only what it has simulated with
    success: the same method with the same arguments on the same contract. *)
Theorem write_submits_only_what_it_simulated
  (store : Web3Store) (method : string) (args : list JsValue) (h : Heap) :
  let submissions :=
    List.filter is_submission
      (events_since h (snd (write W config store method args h))) in
  submissions = [] \/
  exists c h1 v,
    getWriteContract W config store (set_submitting true h) = (Normal c, h1) /\
    staticCall W (tick h1) c method args = Normal v /\
    submissions = [EvSend c method args].
Proof.
  intros submissions. subst submissions. rewrite write_unfold.
  destruct (getWriteContract W config store (set_submitting true h))
    as [[c|e] h1] eqn:Hget.
  - pose proof Hget as Hinv.
    apply getWriteContract_inv in Hinv as (p & s & _ & _ & _ & _ & _ & Hh1).
    cbv zeta.
    destruct (getFunction W c method) as [[]|e].
    + destruct (staticCall W (tick h1) c method args) as [v|e] eqn:Hsim.
      * right. exists c, h1, v. split; [reflexivity|]. split; [exact Hsim|].
        destruct (send W _ c method args) as [tx|e].
        -- unfold events_since. subst h1. simpl. rewrite <- !app_assoc.
           now rewrite drop_app_length.
        -- match goal with
           | |- context [write_catch W config method e ?h0] =>
               destruct (write_catch_rethrows W config method e h0)
                 as (evs & -> & Hevs)
           end.
           unfold events_since. subst h1. simpl. rewrite events_record_events.
           simpl. rewrite <- !app_assoc, drop_app_length. simpl.
           now rewrite (console_events_no_submission _ Hevs).
      * left.
        match goal with
        | |- context [write_catch W config method e ?h0] =>
            destruct (write_catch_rethrows W config method e h0)
              as (evs & -> & Hevs)
        end.
        unfold events_since. subst h1. simpl. rewrite events_record_events.
        simpl. rewrite <- !app_assoc, drop_app_length. simpl.
        now rewrite (console_events_no_submission _ Hevs).
    + left.
      destruct (write_catch_rethrows W config method e h1) as (evs & -> & Hevs).
      unfold events_since. subst h1. simpl. rewrite events_record_events.
      simpl. rewrite <- !app_assoc, drop_app_length. simpl.
      now rewrite (console_events_no_submission _ Hevs).
  - left.
    destruct (write_catch_rethrows W config method e h1) as (evs & -> & Hevs).
    unfold events_since. simpl. rewrite events_record_events.
    apply getWriteContract_throw_inv in Hget as [->|(p & _ & ->)]; simpl.
    + rewrite drop_app_length. now apply console_events_no_submission.
    + rewrite <- !app_assoc, drop_app_length. simpl.
      now apply console_events_no_submission.
Qed.

(** X13: whatever happens, a write ends with the submitting indicator
    cleared, and it leaves the loading indicator and the tokens of the reads
    alone. *)
Theorem write_clears_submitting_on_every_exit
  (store : Web3Store) (method : string) (args : list JsValue) (h : Heap) :
  submitting (snd (write W config store method args h)) = false /\
  loading (snd (write W config store method args h)) = loading h /\
  latestFetchId (snd (write W config store method args h)) = latestFetchId h.
Proof.
  rewrite write_unfold.
  pose proof (getWriteContract_same_instance store (set_submitting true h)) as Hget.
  destruct (getWriteContract W config store (set_submitting true h))
    as [[c|e] h1]; simpl in Hget; cbv zeta.
  - destruct Hget as (Hl & Hlo & _).
    repeat match goal with
           | |- context [match ?x with Normal _ => _ | Throw _ => _ end] =>
               destruct x
           | |- context [write_catch W config ?m ?e ?h0] =>
               pose proof (write_catch_same_instance m e h0) as (Hl' & Hlo' & _);
               destruct (write_catch W config m e h0) as [r h']
           end; simpl in *; repeat split; congruence.
  - destruct Hget as (Hl & Hlo & _).
    pose proof (write_catch_same_instance method e h1) as (Hl' & Hlo' & _).
    destruct (write_catch W config method e h1) as [r h']. simpl in *.
    repeat split; congruence.
Qed.

End WriteFacts.

(** ** Schedules of overlapping reads *)

Lemma run_schedule_app {T} (s1 s2 : list (Step T)) (h : Heap) :
  run_schedule (s1 ++ s2) h
  = (fst (run_schedule s1 h) ++ fst (run_schedule s2 (snd (run_schedule s1 h))),
     snd (run_schedule s2 (snd (run_schedule s1 h)))).
Proof.
  revert h. induction s1 as [|s s1 IH]; intros h; cbn [run_schedule app].
  - simpl. now destruct (run_schedule s2 h).
  - destruct s as [|fetchId outcome].
    + rewrite fetchData_begin_eq. rewrite IH.
      now destruct (run_schedule s1 _).
    + destruct (fetchData_resume fetchId outcome h) as [c h']. rewrite IH.
      now destruct (run_schedule s1 h').
Qed.

Lemma increment_below (n : N) : (n < 2 ^ 53)%N -> increment n = (n + 1)%N.
Proof. intros Hlt. unfold increment. apply N.ltb_lt in Hlt. now rewrite Hlt. Qed.

Lemma fetchData_resume_latest {T} (fetchId : N) (outcome : Completion T) (h : Heap) :
  latestFetchId (snd (fetchData_resume fetchId outcome h)) = latestFetchId h.
Proof.
  destruct (N.eq_dec fetchId (latestFetchId h)) as [Heq|Hne].
  - now rewrite fetchData_resume_current.
  - now rewrite fetchData_resume_stale.
Qed.

Lemma count_issues_cons_issue {T} (steps : list (Step T)) :
  count_issues (Issue :: steps) = S (count_issues steps).
Proof. reflexivity. Qed.

Lemma count_issues_cons_settle {T} (fetchId : N) (o : Completion T)
  (steps : list (Step T)) :
  count_issues (Settle fetchId o :: steps) = count_issues steps.
Proof. reflexivity. Qed.

Lemma tokens_after_succ (first : N) (count : nat) :
  tokens_after first (S count)
  = (first + 1)%N :: tokens_after (first + 1) count.
Proof.
  unfold tokens_after. simpl. f_equal.
  rewrite <- seq_shift, map_map. apply map_ext. intros i. lia.
Qed.

(** The tokens of a schedule, and the counter it leaves. *)
Lemma run_schedule_tokens {T} (steps : list (Step T)) (h : Heap) :
  (latestFetchId h + N.of_nat (count_issues steps) <= 2 ^ 53)%N ->
  issued (fst (run_schedule steps h))
  = tokens_after (latestFetchId h) (count_issues steps) /\
  latestFetchId (snd (run_schedule steps h))
  = (latestFetchId h + N.of_nat (count_issues steps))%N.
Proof.
  revert h. induction steps as [|s steps IH]; intros h Hbound.
  - simpl. split; [reflexivity|]. unfold count_issues. simpl. lia.
  - destruct s as [|fetchId outcome]; cbn [run_schedule].
    + rewrite count_issues_cons_issue in *. rewrite fetchData_begin_eq.
      rewrite increment_below by lia.
      set (h' := set_loading true (set_latestFetchId (latestFetchId h + 1) h)).
      destruct (IH h') as [Htok Hlast]; [subst h'; simpl; lia|].
      destruct (run_schedule steps h') as [obs h'']. simpl in *.
      rewrite tokens_after_succ. split; [now rewrite Htok|]. rewrite Hlast. lia.
    + rewrite count_issues_cons_settle in *.
      pose proof (fetchData_resume_latest fetchId outcome h) as Hsame.
      destruct (fetchData_resume fetchId outcome h) as [c h']. simpl in Hsame.
      destruct (IH h') as [Htok Hlast]; [rewrite Hsame; exact Hbound|].
      destruct (run_schedule steps h') as [obs h'']. simpl in *.
      now rewrite Htok, Hlast, Hsame.
Qed.

Lemma tokens_after_NoDup (first : N) (count : nat) :
  NoDup (tokens_after first count).
Proof.
  unfold tokens_after. apply NoDup_fmap_2; [|apply NoDup_seq].
  intros i j Hij. lia.
Qed.

(** X14: in no schedule is a token given twice: while the counter is below
    2^53, the reads started in a schedule receive the consecutive tokens
    that follow the counter, in the order in which they start. *)
Theorem issued_tokens_are_consecutive {T} (steps : list (Step T)) (h : Heap) :
  (latestFetchId h + N.of_nat (count_issues steps) <= 2 ^ 53)%N ->
  issued (fst (run_schedule steps h))
  = tokens_after (latestFetchId h) (count_issues steps) /\
  NoDup (issued (fst (run_schedule steps h))).
Proof.
  intros Hbound. destruct (run_schedule_tokens steps h Hbound) as [Htok _].
  split; [exact Htok|]. rewrite Htok. apply tokens_after_NoDup.
Qed.

(** X15: the last issued wins.  Whatever has been scheduled before, a
    fetcher that settles is delivered to its caller as it settled exactly
    when its token is the one of the read started last; any other settlement,
    success or failure, is delivered as "Stale fetch result". *)
Theorem last_issued_read_wins
  {T} (before after : list (Step T)) (fetchId : N) (outcome : Completion T)
  (h : Heap) :
  (latestFetchId h + N.of_nat (count_issues before) <= 2 ^ 53)%N ->
  exists rest,
    fst (run_schedule (before ++ Settle fetchId outcome :: after) h)
    = fst (run_schedule before h)
      ++ Delivered fetchId
           (if (fetchId =? latestFetchId h + N.of_nat (count_issues before))%N
            then outcome
            else Throw (Error "Stale fetch result"))
      :: rest.
Proof.
  intros Hbound. rewrite run_schedule_app. cbn [fst run_schedule].
  destruct (run_schedule_tokens before h Hbound) as [_ Hlast].
  set (h1 := snd (run_schedule before h)) in *.
  exists (fst (run_schedule after (snd (fetchData_resume fetchId outcome h1)))).
  f_equal.
  destruct (N.eqb_spec fetchId (latestFetchId h + N.of_nat (count_issues before)))
    as [Heq|Hne].
  - rewrite (fetchData_resume_current fetchId outcome h1) by congruence.
    now destruct (run_schedule after _).
  - rewrite (fetchData_resume_stale fetchId outcome h1) by congruence.
    now destruct (run_schedule after _).
Qed.

(** ** Shortened addresses *)

Lemma substring_length (s : string) (i j : nat) :
  String.length (substring i j s) = Nat.min j (String.length s - i).
Proof.
  revert i j. induction s as [|c s IH]; intros [|i] [|j]; simpl;
    rewrite ?IH; try reflexivity; lia.
Qed.

Lemma substring_all (s : string) : substring 0 (String.length s) s = s.
Proof. induction s as [|c s IH]; simpl; [reflexivity|now rewrite IH]. Qed.

Lemma string_length_app (s1 s2 : string) :
  String.length (s1 +:+ s2) = (String.length s1 + String.length s2)%nat.
Proof. induction s1 as [|c s1 IH]; simpl; [reflexivity|now rewrite IH]. Qed.

Lemma slice_prefix (s : string) (start : Z) :
  0 <= start ->
  slice s 0 (Some start)
  = substring 0 (Nat.min (Z.to_nat start) (String.length s)) s.
Proof.
  intros Hstart. unfold slice, slice_index. rewrite Z.ltb_irrefl.
  destruct (Z.ltb_spec start 0) as [Hneg|_]; [lia|].
  f_equal; lia.
Qed.

Lemma slice_suffix (s : string) (end_ : Z) :
  end_ < 0 ->
  slice s end_ None
  = substring (String.length s - Nat.min (Z.to_nat (- end_)) (String.length s))
      (Nat.min (Z.to_nat (- end_)) (String.length s)) s.
Proof.
  intros Hend. unfold slice, slice_index.
  destruct (Z.ltb_spec end_ 0) as [_|Hpos]; [|lia].
  f_equal; lia.
Qed.

Lemma slice_from_zero (s : string) : slice s 0 None = s.
Proof.
  unfold slice, slice_index. rewrite Z.ltb_irrefl.
  replace (Z.to_nat (Z.min 0 (Z.of_nat (String.length s)))) with 0%nat by lia.
  replace (Z.to_nat _) with (String.length s) by lia.
  apply substring_all.
Qed.

(** X16: [shortenAddress] keeps the first [start] and the last [-end]
    characters around an ellipsis, as many as the address has: the result
    has [min start n + 3 + min (-end) n] characters for an address of [n],
    so that an address shorter than [start - end] has characters repeated
    and comes out longer than it went in.  The empty address gives the empty
    string, and [end = 0] keeps the whole address after the ellipsis. *)
Theorem shortenAddress_shape (address : string) (start end_ : Z) :
  let n := String.length address in
  let k := Nat.min (Z.to_nat start) n in
  let m := Nat.min (Z.to_nat (- end_)) n in
  shortenAddress EmptyString start end_ = EmptyString /\
  (address <> EmptyString -> 0 <= start -> end_ < 0 ->
   shortenAddress address start end_
   = substring 0 k address +:+ "..." +:+ substring (n - m) m address /\
   String.length (shortenAddress address start end_) = (k + 3 + m)%nat) /\
  (address <> EmptyString -> 0 <= start ->
   shortenAddress address start 0
   = substring 0 k address +:+ "..." +:+ address).
Proof.
  intros n k m. split; [reflexivity|]. split.
  - intros Hne Hstart Hend. unfold shortenAddress.
    apply String.eqb_neq in Hne. rewrite Hne.
    rewrite (slice_prefix _ _ Hstart), (slice_suffix _ _ Hend).
    fold n k m. split; [reflexivity|].
    rewrite !string_length_app, !substring_length. fold n. simpl. lia.
  - intros Hne Hstart. unfold shortenAddress.
    apply String.eqb_neq in Hne. rewrite Hne.
    now rewrite (slice_prefix _ _ Hstart), slice_from_zero.
Qed.

Lemma shortenAddress_shape_witness :
  shortenAddress "0x1234567890abcdef1234567890abcdef12345678"
    shortenAddress_start shortenAddress_end
  = "0x1234...5678" /\
  String.length (shortenAddress "ab" shortenAddress_start shortenAddress_end) = 7%nat /\
  shortenAddress "0xabcdef" 4 0 = "0xab...0xabcdef".
Proof.
  split; [|split].
  - apply (proj1 (proj2 (shortenAddress_shape
                           "0x1234567890abcdef1234567890abcdef12345678" 6 (-4))));
      [discriminate|lia|lia].
  - apply (proj1 (proj2 (shortenAddress_shape "ab" 6 (-4))));
      [discriminate|lia|lia].
  - apply (proj2 (proj2 (shortenAddress_shape "0xabcdef" 4 0)));
      [discriminate|lia].
Defined.

(** ** Chain configuration *)

Lemma hex_value_app (s1 s2 : string) (acc : N) :
  hex_value (s1 +:+ s2) acc = hex_value s2 (hex_value s1 acc).
Proof. revert acc. induction s1 as [|c s1 IH]; intros acc; simpl; auto. Qed.

Lemma string_app_assoc (s1 s2 s3 : string) :
  (s1 +:+ s2) +:+ s3 = s1 +:+ (s2 +:+ s3).
Proof.
  induction s1 as [|c s1 IH]; [reflexivity|].
  change (String c ((s1 +:+ s2) +:+ s3) = String c (s1 +:+ s2 +:+ s3)).
  now f_equal.
Qed.

Lemma hex_go_acc (fuel : nat) (n : N) (acc : string) :
  hex_go fuel n acc = hex_go fuel n EmptyString +:+ acc.
Proof.
  revert n acc. induction fuel as [|fuel IH]; intros n acc; simpl; [reflexivity|].
  destruct (n =? 0)%N; [reflexivity|].
  rewrite (IH _ (String _ acc)), (IH _ (String _ EmptyString)).
  now rewrite string_app_assoc.
Qed.

Lemma hex_digit_value_digit (d : N) :
  (d < 16)%N -> hex_digit_value (hex_digit d) = d.
Proof.
  intros Hd. destruct d as [|p]; [reflexivity|].
  destruct p as [[[[p|p|]|[p|p|]|]|[[p|p|]|[p|p|]|]|]
                |[[[p|p|]|[p|p|]|]|[[p|p|]|[p|p|]|]|]|];
    try reflexivity; lia.
Qed.

Lemma hex_go_value (fuel : nat) (n : N) :
  (n < 2 ^ N.of_nat fuel)%N ->
  hex_value (hex_go fuel n EmptyString) 0 = n.
Proof.
  revert n. induction fuel as [|fuel IH]; intros n Hn.
  - simpl in *. lia.
  - cbn [hex_go]. destruct (N.eqb_spec n 0) as [->|Hne]; [reflexivity|].
    rewrite hex_go_acc, hex_value_app. cbn [hex_value].
    rewrite IH.
    + rewrite hex_digit_value_digit by (apply N.mod_lt; lia).
      rewrite (N.div_mod n 16) at 3 by lia. lia.
    + rewrite Nat2N.inj_succ, N.pow_succ_r' in Hn.
      apply N.Div0.div_lt_upper_bound. lia.
Qed.

Lemma pos_below_size (p : positive) :
  (Npos p < 2 ^ N.of_nat (Pos.size_nat p))%N.
Proof.
  induction p as [p IH|p IH|]; cbn [Pos.size_nat];
    rewrite ?Nat2N.inj_succ, ?N.pow_succ_r'; simpl; lia.
Qed.

(** Printing a positive integer in hexadecimal loses nothing. *)
Lemma hex_of_N_value (p : positive) : hex_value (hex_of_N (Npos p)) 0 = Npos p.
Proof.
  unfold hex_of_N. simpl (_ =? _)%N. cbn [N.size_nat].
  apply hex_go_value, pos_below_size.
Qed.

Lemma toString16_reads_back (n : Z) (digits : string) (value : positive) :
  toString16 n = digits ->
  hex_value digits 0 = Npos value ->
  String.get 0 digits <> Some "-"%char ->
  n = Zpos value.
Proof.
  intros <- Hvalue Hsign. destruct n as [|p|p].
  - discriminate Hvalue.
  - simpl in Hvalue. rewrite hex_of_N_value in Hvalue. congruence.
  - exfalso. apply Hsign. reflexivity.
Qed.

(** X17: the chains offered to the wallet and the pool of fallback endpoints
    describe the same networks: for every chain number, [getRpcUrl] finds a
    chain exactly when the pool has endpoints for it, and the URL it returns
    is the first endpoint of the pool. *)
Theorem chains_agree_with_the_endpoint_pool (n : Z) :
  chains.getRpcUrl (chains.KeyNumber n) = head (getRpcEndpoints n).
Proof.
  destruct (decide (n ∈ [56; 97; 1; 137; 42161; 8453])) as [Hin|Hout].
  - repeat (apply elem_of_cons in Hin as [->|Hin]; [reflexivity|]).
    inversion Hin.
  - assert (Hpool : getRpcEndpoints n = []).
    { apply getRpcEndpoints_empty_iff.
      destruct (RPC_ENDPOINTS !! n) eqn:Hlook; [|reflexivity].
      exfalso. apply Hout, RPC_ENDPOINTS_configured. eauto. }
    rewrite Hpool. simpl.
    unfold chains.getRpcUrl, chains.getChainById, chains.CHAINS.
    cbn [List.find chains.id].
    repeat match goal with
           | |- context [String.eqb ?a ?b] =>
               destruct (String.eqb_spec a b) as [Heq|_];
               [exfalso; injection Heq as Heq;
                apply Hout;
                rewrite (toString16_reads_back n _ _ (eq_sym Heq) eq_refl
                           ltac:(discriminate));
                repeat constructor|]
           end.
    reflexivity.
Qed.

(** ** The invariant of the cache *)

(** X18: every handle in the cache was built from an endpoint configured for
    the chain it is cached under; this holds of the empty cache and is kept
    by [getRpcProvider], [clearProviderCache], [read] and [write]. *)
Theorem cache_configured_is_kept
  `{Runtime} (W : World) (config : ContractConfig) (store : Web3Store)
  (method : string) (args : list JsValue) (chain : Z) (h : Heap) :
  cache_configured h ->
  cache_configured (snd (getRpcProvider W chain h)) /\
  cache_configured (snd (clearProviderCache h)) /\
  cache_configured (snd (read W config store method args h)) /\
  cache_configured (snd (write W config store method args h)).
Proof.
  intros Hinv. split; [|split; [|split]].
  - now apply getRpcProvider_preserves_cache_configured.
  - apply clearProviderCache_cache_configured.
  - now apply read_cache_configured.
  - destruct (write_events W config store method args h) as (evs & _ & _ & Hcache).
    now apply (cache_configured_ext h).
Qed.

Lemma cache_configured_is_kept_witness :
  cache_configured
    (snd (read first_endpoint_down token_on_bsc disconnected_store "balanceOf" []
            initial_heap)).
Proof.
  apply (cache_configured_is_kept first_endpoint_down token_on_bsc
           disconnected_store "balanceOf" [] 56 initial_heap).
  exact initial_heap_cache_configured.
Defined.

(** ** Instances of the further properties *)



Lemma getRpcProvider_keeps_other_chains_witness :
  let cached := snd (getRpcProvider first_endpoint_down 56 initial_heap) in
  providerCache (snd (getRpcProvider all_endpoints_down 1 cached)) !! 56
  = providerCache cached !! 56.
Proof.
  intros cached.
  apply (getRpcProvider_keeps_other_chains all_endpoints_down 1 56 cached).
  discriminate.
Defined.


Lemma getReadContract_prefers_the_wallet_witness :
  getReadContract reverting_world token_on_bsc (wallet_on 56) initial_heap
  = (Normal (contract_on token_on_bsc (RunnerBrowser {| eip1193_ref := 0 |})),
     initial_heap).
Proof.
  apply (getReadContract_prefers_the_wallet reverting_world token_on_bsc
           (wallet_on 56) initial_heap {| eip1193_ref := 0 |}); reflexivity.
Defined.

Lemma getReadContract_falls_back_to_the_pool_witness :
  getReadContract reverting_world token_on_bsc (wallet_on 1) initial_heap
  = contract_from_pool reverting_world token_on_bsc initial_heap /\
  fst (getReadContract broken_channel token_on_bsc (wallet_on 56) initial_heap)
  = Normal (contract_on token_on_bsc
              (RunnerRpc {| provider_ref := 0;
                            provider_url := "https://bsc-rpc.publicnode.com" |})).
Proof.
  split.
  - apply (proj1 (getReadContract_falls_back_to_the_pool reverting_world
                    token_on_bsc (wallet_on 1) initial_heap)).
    right. left. reflexivity.
  - rewrite (proj2 (getReadContract_falls_back_to_the_pool broken_channel
                      token_on_bsc (wallet_on 56) initial_heap)
               {| eip1193_ref := 0 |} (Error "invalid EIP-1193 provider"));
      reflexivity.
Defined.


Lemma write_submission_failure_is_rethrown_witness :
  fst (write rejecting_wallet token_on_bsc (wallet_on 56) "transfer" []
         initial_heap)
  = Throw (Error "user rejected action").
Proof.
  apply (write_submission_failure_is_rethrown rejecting_wallet token_on_bsc
           (wallet_on 56) "transfer" [] initial_heap {| eip1193_ref := 0 |}
           {| signer_address := "0x00000000000000000000000000000000000000aa" |}
           JsUndefined (Error "user rejected action")); reflexivity.
Defined.

Lemma issued_tokens_are_consecutive_witness :
  issued (fst (run_schedule
                 [Issue; Issue; Settle 1%N (Normal "A"); Issue; Settle 3%N (Normal "C")]
                 initial_heap))
  = [1; 2; 3]%N.
Proof.
  apply (issued_tokens_are_consecutive
           [Issue; Issue; Settle 1%N (Normal "A"); Issue; Settle 3%N (Normal "C")]
           initial_heap).
  vm_compute. discriminate.
Defined.

Lemma last_issued_read_wins_witness :
  exists rest,
    fst (run_schedule ([Issue; Issue] ++ Settle 1%N (Normal "A") :: [Settle 2%N (Normal "B")])
           initial_heap)
    = fst (run_schedule [Issue; Issue] initial_heap)
      ++ Delivered 1%N (Throw (Error "Stale fetch result")) :: rest.
Proof.
  apply (last_issued_read_wins [Issue; Issue] [Settle 2%N (Normal "B")] 1%N
           (Normal "A") initial_heap).
  vm_compute. discriminate.
Defined.


(** ** Safe integers through [asNumber] and [asBigInt] *)

Lemma digits2_pos_bounds (m : positive) :
  2 ^ (Z.pos (digits2_pos m) - 1) <= Z.pos m < 2 ^ Z.pos (digits2_pos m).
Proof.
  induction m as [m IH|m IH|]; cbn [digits2_pos]; [| |simpl; lia].
  - rewrite Pos2Z.inj_succ.
    replace (Z.succ (Z.pos (digits2_pos m)) - 1)
      with (Z.succ (Z.pos (digits2_pos m) - 1)) by lia.
    rewrite !Z.pow_succ_r by lia. lia.
  - rewrite Pos2Z.inj_succ.
    replace (Z.succ (Z.pos (digits2_pos m)) - 1)
      with (Z.succ (Z.pos (digits2_pos m) - 1)) by lia.
    rewrite !Z.pow_succ_r by lia. lia.
Qed.

Lemma iter_xO_value (m k : positive) :
  Z.pos (Pos.iter xO m k) = Z.pos m * 2 ^ Z.pos k.
Proof.
  induction k as [|k IH] using Pos.peano_ind.
  - simpl. lia.
  - rewrite Pos.iter_succ, Pos2Z.inj_succ, Z.pow_succ_r by lia.
    rewrite Pos2Z.inj_xO, IH. lia.
Qed.

Lemma iter_xO_digits (m k : positive) :
  digits2_pos (Pos.iter xO m k) = (digits2_pos m + k)%positive.
Proof.
  induction k as [|k IH] using Pos.peano_ind.
  - simpl. lia.
  - rewrite Pos.iter_succ. cbn [digits2_pos]. rewrite IH. lia.
Qed.

(** A mantissa that already has the exponent of its format is not rounded. *)
Lemma binary_round_aux_exact (s : bool) (m : positive) (e : Z) :
  fexp prec emax (Z.pos (digits2_pos m) + e) = e ->
  e <= emax - prec ->
  binary_round_aux prec emax s (Z.pos m) e loc_Exact = S754_finite s m e.
Proof.
  intros Hfexp Hmax. unfold binary_round_aux, shr_fexp. cbn [Zdigits2].
  rewrite Hfexp, Z.sub_diag. cbn [shr shr_record_of_loc shr_m loc_of_shr_record
                                   round_nearest_even Zdigits2].
  rewrite Hfexp, Z.sub_diag. cbn [shr shr_record_of_loc shr_m].
  apply Z.leb_le in Hmax. now rewrite Hmax.
Qed.

(** The binary64 value of a positive integer below 2^53 is that integer. *)
Lemma binary_round_safe_integer (s : bool) (p : positive) :
  Z.pos p < 2 ^ 53 ->
  integral_value (binary_round prec emax s p 0)
  = Some ((if s then -1 else 1) * Z.pos p).
Proof.
  intros Hsafe. pose proof (digits2_pos_bounds p) as [Hlow Hhigh].
  assert (Hd : Z.pos (digits2_pos p) <= 53).
  { destruct (Z.le_gt_cases (Z.pos (digits2_pos p)) 53) as [Hle|Hgt]; [exact Hle|].
    assert (2 ^ 53 <= 2 ^ (Z.pos (digits2_pos p) - 1))
      by (apply Z.pow_le_mono_r; lia).
    lia. }
  assert (Hfexp : fexp prec emax (Z.pos (digits2_pos p) + 0)
                  = Z.pos (digits2_pos p) - 53).
  { unfold fexp, emin, prec, emax. lia. }
  unfold binary_round, shl_align. rewrite Hfexp.
  destruct (Z.pos (digits2_pos p) - 53 - 0) as [|k|k] eqn:Hk; [|lia|].
  - rewrite binary_round_aux_exact.
    + simpl. f_equal. lia.
    + rewrite Hfexp. lia.
    + unfold prec, emax. lia.
  - replace (Z.pos (digits2_pos p) - 53) with (Z.neg k) by lia.
    rewrite binary_round_aux_exact.
    + cbn [integral_value]. rewrite iter_xO_value.
      change (0 <=? Z.neg k) with false. cbv iota.
      change (- Z.neg k) with (Z.pos k).
      rewrite Z.mod_mul by lia. simpl (0 =? 0).
      rewrite Z.div_mul by lia. reflexivity.
    + rewrite iter_xO_digits, Pos2Z.inj_add.
      unfold fexp, emin, prec, emax. lia.
    + unfold prec, emax. lia.
Qed.

(** X22: a bigint of magnitude below 2^53 survives the conversion to a
    number and back: [asBigInt(asNumber(z))] is [z], whatever the fallbacks;
    it neither throws nor falls back. *)
Theorem safe_integers_round_trip
  `{Runtime} (z : Z) (fallback : spec_float) (fallback' : Z) :
  Z.abs z < 2 ^ 53 ->
  asBigInt (JsNumber (asNumber (JsBigInt z) fallback)) fallback' = Normal z.
Proof.
  intros Hsafe. cbn [asNumber asBigInt]. unfold BigInt_of_number, Number_of_bigint.
  destruct z as [|p|p]; cbn [binary_normalize].
  - reflexivity.
  - rewrite binary_round_safe_integer by lia. reflexivity.
  - rewrite binary_round_safe_integer by lia. reflexivity.
Qed.

Lemma safe_integers_round_trip_witness :
  asBigInt (JsNumber (asNumber (JsBigInt 9007199254740991) (S754_zero false))) 0
  = Normal 9007199254740991.
Proof.
  apply (safe_integers_round_trip 9007199254740991 (S754_zero false) 0).
  reflexivity.
Defined.

(** Above 2^53 the conversion rounds: 2^53 + 1 comes back as 2^53. *)
Example unsafe_integer_is_rounded :
  asBigInt (JsNumber (asNumber (JsBigInt (2 ^ 53 + 1)) (S754_zero false))) 0
  = Normal (2 ^ 53).
Proof. reflexivity. Qed.

(** ** Reading one's own writes *)


